(** * photon-imsg-mcp: tool handlers, client wrapper and dispatcher

    A shallow embedding of [src/tools/imessage.ts] (argument guards and the
    four tool handlers), [src/client.ts] (the [PhotonClient] wrapper around
    the iMessage SDK, with the conversation aggregation it performs in
    memory) and [src/server.ts] (the dispatcher of tool calls).

    Conventions of the embedding:
    - an untyped JavaScript value ([unknown] in the handlers) is a
      [JsValue]; an object is a finite map from property names to values;
    - a JavaScript number is an integer or [NaN]: fractions and infinities
      are outside the model, and integers are meant within [2 ^ 53] in
      magnitude, where the runtime holds them exactly, multiplies them
      exactly and prints them in plain decimal;
    - a [Date] is its time value (milliseconds), an integer;
    - [throw] and rejected promises are the left summand of [Completion];
    - a JavaScript [Map] is an association list in insertion order and a
      [Set] a duplicate-free list in insertion order, since both are
      iterated in that order by the code. *)

From stdpp Require Import gmap strings list fin_maps pretty sorting.
From Stdlib Require Import ZArith Ascii Permutation Sorted.

Local Open Scope string_scope.
Local Open Scope Z_scope.

(** ** JavaScript values *)

Inductive JsNumber :=
  | Fin (z : Z)
  | NaN.

#[warnings="-register-all"] Inductive JsValue :=
  | JUndefined
  | JNull
  | JBool (b : bool)
  | JNumber (n : JsNumber)
  | JString (s : string)
  | JArray (items : list JsValue)
  | JObject (props : gmap string JsValue).

#[global] Instance JsNumber_eq_dec : EqDecision JsNumber.
Proof. solve_decision. Defined.

(** [Array.prototype.join] and [String.prototype.concat] on strings. *)
Fixpoint join (sep : string) (parts : list string) : string :=
  match parts with
  | [] => ""
  | [p] => p
  | p :: rest => p ++ sep ++ join sep rest
  end.

(** [String(n)]: plain decimal digits, as the runtime prints integers
    below [10 ^ 21] in magnitude. *)
Definition numberToString (n : JsNumber) : string :=
  match n with
  | Fin z => pretty z
  | NaN => "NaN"
  end.

(** The abstract operation [ToString], as used by template literals and by
    [String(error)]. An element of an array that is [undefined] or [null]
    prints as the empty string. *)
Fixpoint ToString (v : JsValue) : string :=
  match v with
  | JUndefined => "undefined"
  | JNull => "null"
  | JBool true => "true"
  | JBool false => "false"
  | JNumber n => numberToString n
  | JString s => s
  | JArray items =>
      join "," (map (fun x => match x with
                              | JUndefined | JNull => ""
                              | _ => ToString x
                              end) items)
  | JObject _ => "[object Object]"
  end.

(** [ToBoolean]: the falsy values are [undefined], [null], [false], [0],
    [NaN] and the empty string. *)
Definition truthy (v : JsValue) : bool :=
  match v with
  | JUndefined | JNull => false
  | JBool b => b
  | JNumber (Fin z) => negb (Z.eqb z 0)
  | JNumber NaN => false
  | JString s => negb (String.eqb s "")
  | JArray _ | JObject _ => true
  end.

Inductive JsType := TUndefined | TObject | TBoolean | TNumber | TString.

#[global] Instance JsType_eq_dec : EqDecision JsType.
Proof. solve_decision. Defined.

(** The [typeof] operator ([typeof null] is ["object"]). *)
Definition typeof (v : JsValue) : JsType :=
  match v with
  | JUndefined => TUndefined
  | JNull | JArray _ | JObject _ => TObject
  | JBool _ => TBoolean
  | JNumber _ => TNumber
  | JString _ => TString
  end.

(** [key in v] for the property names the handlers test ([recipient],
    [text], [chatId]); an array has none of them. *)
Definition hasProperty (key : string) (v : JsValue) : bool :=
  match v with
  | JObject props => bool_decide (is_Some (props !! key))
  | _ => false
  end.

(** [v.key] on a value already known to be a non-null object. *)
Definition getProperty (key : string) (v : JsValue) : JsValue :=
  match v with
  | JObject props => default JUndefined (props !! key)
  | _ => JUndefined
  end.

(** ** Exceptions and completions *)

(** A thrown value is an [Error] carrying its [message], or any other
    value. *)
Inductive Thrown :=
  | ErrorObj (message : string)
  | ThrownValue (v : JsValue).

(** The outcome of a call: it returns a value or throws (for an [async]
    function: its promise is fulfilled or rejected). *)
Inductive Completion (A : Type) :=
  | Return (a : A)
  | Throw (e : Thrown).

Arguments Return {A} a.
Arguments Throw {A} e.

(** Sequencing of calls: the first [throw] ends the computation. The
    instances give the notations [x ← c; k] and [c;; k]. *)
#[global] Instance Completion_bind : MBind Completion := fun A B k c =>
  match c with
  | Return a => k a
  | Throw e => Throw e
  end.

#[global] Instance Completion_ret : MRet Completion := fun A a => Return a.

(** [try { body } catch (error) { handler error }]. *)
Definition tryCatch {A} (body : Completion A) (handler : Thrown -> Completion A)
  : Completion A :=
  match body with
  | Return a => Return a
  | Throw e => handler e
  end.

(** [error instanceof Error ? error.message : String(error)]. *)
Definition errorText (error : Thrown) : string :=
  match error with
  | ErrorObj message => message
  | ThrownValue v => ToString v
  end.

(** [if (cond) throw new Error(message)]. *)
Definition throwIf (cond : bool) (message : string) : Completion unit :=
  if cond then Throw (ErrorObj message) else Return tt.

(** ** The SDK boundary *)

(** A message record as the SDK delivers it. [msg_text] may be [null]. *)
Record Message := {
  msg_text : option string;
  msg_date : Z;
  msg_sender : string;
  msg_service : string;
  msg_chatId : string;
  msg_isFromMe : bool;
  msg_isRead : bool;
  msg_isGroupChat : bool;
}.

(** The filter object handed to [sdk.getMessages]; an absent property is
    [None] (for [unreadOnly]: [false]). *)
Record MessageFilter := {
  excludeOwnMessages : bool;
  filter_sender : option JsValue;
  filter_unreadOnly : bool;
  filter_limit : option JsValue;
}.

(** What [sdk.getMessages] resolves to: a bare array, or a wrapper object
    whose [messages] property may be absent. *)
Inductive MessageQueryResult :=
  | ResultArray (msgs : list Message)
  | ResultObject (messages : option (list Message)).

(** The three entry points of the SDK the client uses. [asRecipient] returns
    the validated recipient or throws. *)
Record IMessageSDK := {
  asRecipient : JsValue -> Completion JsValue;
  send : JsValue -> JsValue -> Completion unit;
  getMessages : MessageFilter -> Completion MessageQueryResult;
}.

(** [Array.isArray(result) ? result : (result as any).messages || []] *)
Definition messagesOf (result : MessageQueryResult) : list Message :=
  match result with
  | ResultArray msgs => msgs
  | ResultObject (Some msgs) => msgs
  | ResultObject None => []
  end.

(** [s || fallback] on strings. *)
Definition orElse (s fallback : string) : string :=
  if String.eqb s "" then fallback else s.

(** [msg.text || '(no text)'] *)
Definition textOf (msg : Message) : string :=
  match msg_text msg with
  | Some s => orElse s "(no text)"
  | None => "(no text)"
  end.

Definition nl : string := String "010"%char EmptyString.

(** ** Numbers *)

(** [a * b]: the exact product, which is what the runtime computes while
    the product stays within [2 ^ 53] in magnitude. *)
Definition multiply (a b : JsNumber) : JsNumber :=
  match a, b with
  | Fin x, Fin y => Fin (x * y)
  | _, _ => NaN
  end.

Definition ToIntegerOrInfinity (n : JsNumber) : Z :=
  match n with
  | Fin z => z
  | NaN => 0
  end.

(** Built-ins of the JavaScript runtime whose results the code only passes
    on: [Date.prototype.toLocaleString] (locale dependent) and the
    conversion of a string to a number. *)
Record Runtime := {
  toLocaleString : Z -> string;
  StringToNumber : string -> JsNumber;
}.

(** The abstract operation [ToNumber]; arrays and objects go through their
    string form. *)
Definition ToNumber (rt : Runtime) (v : JsValue) : JsNumber :=
  match v with
  | JUndefined => NaN
  | JNull => Fin 0
  | JBool true => Fin 1
  | JBool false => Fin 0
  | JNumber n => n
  | JString s => StringToNumber rt s
  | JArray _ | JObject _ => StringToNumber rt (ToString v)
  end.

(** [array.slice(0, end)]: a negative [end] counts from the end of the
    array. *)
Definition slice0 {A} (l : list A) (relativeEnd : Z) : list A :=
  let len := Z.of_nat (length l) in
  let final := if relativeEnd <? 0 then Z.max (len + relativeEnd) 0
               else Z.min relativeEnd len in
  take (Z.to_nat final) l.

(** [Array.prototype.sort(compare)]: a stable sort; an element moves before
    another only if [compare] orders it not after. *)
Fixpoint insertBy {A} (compare : A -> A -> Z) (x : A) (l : list A) : list A :=
  match l with
  | [] => [x]
  | y :: rest => if compare x y <=? 0 then x :: l else y :: insertBy compare x rest
  end.

Fixpoint sortBy {A} (compare : A -> A -> Z) (l : list A) : list A :=
  match l with
  | [] => []
  | x :: rest => insertBy compare x (sortBy compare rest)
  end.

(** ** Conversation aggregation (client.ts) *)

(** The value type of [conversationMap]. *)
Record ConversationEntry := {
  chatId : string;
  lastMessage : string;
  lastDate : Z;
  participants : list string;
  unreadCount : nat;
}.

(** [Set.prototype.add]: insertion order, no duplicates. *)
Definition setAdd (x : string) (s : list string) : list string :=
  if decide (x ∈ s) then s else s ++ [x].

(** [Map.prototype.has], [get] and [set] on an insertion-ordered map. *)
Definition mapHas {V} (key : string) (m : list (string * V)) : bool :=
  bool_decide (key ∈ m.*1).

Fixpoint mapGet {V} (key : string) (m : list (string * V)) : option V :=
  match m with
  | [] => None
  | (k, v) :: rest => if decide (k = key) then Some v else mapGet key rest
  end.

Fixpoint mapSet {V} (key : string) (value : V) (m : list (string * V))
  : list (string * V) :=
  match m with
  | [] => [(key, value)]
  | (k, v) :: rest =>
      if decide (k = key) then (k, value) :: rest
      else (k, v) :: mapSet key value rest
  end.

(** The entry created when a chat id is seen for the first time. *)
Definition newEntry (msg : Message) : ConversationEntry :=
  {| chatId := msg_chatId msg;
     lastMessage := textOf msg;
     lastDate := msg_date msg;
     participants := [];
     unreadCount := 0 |}.

(** The two updates of the loop body on the entry of the message's chat. *)
Definition updateEntry (conv : ConversationEntry) (msg : Message) : ConversationEntry :=
  let conv1 :=
    if msg_date msg >? lastDate conv
    then {| chatId := chatId conv; lastMessage := textOf msg;
            lastDate := msg_date msg; participants := participants conv;
            unreadCount := unreadCount conv |}
    else conv in
  if negb (msg_isFromMe msg)
  then {| chatId := chatId conv1; lastMessage := lastMessage conv1;
          lastDate := lastDate conv1;
          participants := setAdd (msg_sender msg) (participants conv1);
          unreadCount := if negb (msg_isRead msg) then S (unreadCount conv1)
                         else unreadCount conv1 |}
  else conv1.

(** One iteration of [for (const msg of messages)] in [getConversations]. *)
Definition groupStep (conversationMap : list (string * ConversationEntry))
    (msg : Message) : list (string * ConversationEntry) :=
  let key := msg_chatId msg in
  let m1 := if mapHas key conversationMap then conversationMap
            else mapSet key (newEntry msg) conversationMap in
  match mapGet key m1 with
  | Some conv => mapSet key (updateEntry conv msg) m1
  | None => m1
  end.

Definition groupMessages (messages : list Message) : list (string * ConversationEntry) :=
  fold_left groupStep messages [].

(** [(a, b) => b.lastDate.getTime() - a.lastDate.getTime()] *)
Definition byLastDateDesc (a b : ConversationEntry) : Z :=
  lastDate b - lastDate a.

(** [Array.from(conversationMap.values()).sort(...).slice(0, limit)] *)
Definition selectConversations (messages : list Message) (limit : Z)
  : list ConversationEntry :=
  slice0 (sortBy byLastDateDesc (groupMessages messages).*2) limit.

Definition formatConversation (conv : ConversationEntry) : string :=
  let participantsText := orElse (join ", " (participants conv)) "Unknown" in
  let unread := if (0 <? unreadCount conv)%nat
                then " (" ++ pretty (unreadCount conv) ++ " unread)" else "" in
  "Chat ID: " ++ chatId conv ++ nl ++ "Participants: " ++ participantsText ++ nl
  ++ "Last Message: " ++ lastMessage conv ++ unread.

(** The locals of [getConversationDetails]. *)
Record Details := {
  d_participants : list string;
  d_lastMessage : string;
  d_lastDate : option Z;
  d_unreadCount : nat;
  d_isGroupChat : bool;
}.

Definition noDetails : Details :=
  {| d_participants := []; d_lastMessage := "No messages"; d_lastDate := None;
     d_unreadCount := 0; d_isGroupChat := false |}.

(** One iteration of [for (const msg of chatMessages)]. *)
Definition detailStep (d : Details) (msg : Message) : Details :=
  let fromOther := negb (msg_isFromMe msg) in
  let later := match d_lastDate d with
               | None => true
               | Some lastDate => msg_date msg >? lastDate
               end in
  {| d_participants := if fromOther then setAdd (msg_sender msg) (d_participants d)
                       else d_participants d;
     d_unreadCount := if fromOther && negb (msg_isRead msg) then S (d_unreadCount d)
                      else d_unreadCount d;
     d_lastMessage := if later then textOf msg else d_lastMessage d;
     d_lastDate := if later then Some (msg_date msg) else d_lastDate d;
     d_isGroupChat := if msg_isGroupChat msg then true else d_isGroupChat d |}.

Definition collectDetails (chatMessages : list Message) : Details :=
  fold_left detailStep chatMessages noDetails.

(** ** The client wrapper (class PhotonClient, client.ts) *)

Module PhotonClient.
Section Methods.
Context (rt : Runtime) (sdk : IMessageSDK).

Definition invalidRecipient (recipient : JsValue) : Thrown :=
  ErrorObj ("Invalid recipient format: " ++ ToString recipient
            ++ ". Expected phone number (e.g., +1234567890) or email address.").

Definition sendMessage (args : JsValue) : Completion string :=
  tryCatch
    (let recipient := getProperty "recipient" args in
     let text := getProperty "text" args in
     throwIf (negb (truthy recipient) || negb (truthy text))
             "Recipient and text are required";;
     validatedRecipient ←
       tryCatch (asRecipient sdk recipient)
                (fun _ => Throw (invalidRecipient recipient));
     send sdk validatedRecipient text;;
     Return ("Message sent successfully to " ++ ToString recipient))
    (fun error => Throw (ErrorObj ("Failed to send message: " ++ errorText error))).

(** The filter [readMessages] builds before it queries the SDK. *)
Definition readFilter (args : JsValue) : Completion MessageFilter :=
  let recipient := getProperty "recipient" args in
  let limit := match getProperty "limit" args with
               | JUndefined => JNumber (Fin 50)
               | v => v
               end in
  let unreadOnly := getProperty "unreadOnly" args in
  sender ←
    (if truthy recipient
     then tryCatch (validatedRecipient ← asRecipient sdk recipient;
                    Return (Some validatedRecipient))
                   (fun _ => Throw (invalidRecipient recipient))
     else Return None);
  Return {| excludeOwnMessages := false;
            filter_sender := sender;
            filter_unreadOnly := truthy unreadOnly;
            filter_limit := if truthy limit then Some limit else None |}.

(** The line of one message. [msg.date] is a [Date], hence truthy, so the
    ['Unknown date'] branch of the source is not taken. *)
Definition formatMessage (msg : Message) : string :=
  let date := toLocaleString rt (msg_date msg) in
  let sender := if msg_isFromMe msg then "You" else orElse (msg_sender msg) "Unknown" in
  let text := textOf msg in
  let service := orElse (msg_service msg) "iMessage" in
  "[" ++ date ++ "] " ++ sender ++ " (" ++ service ++ "): " ++ text.

Definition readMessages (args : JsValue) : Completion string :=
  tryCatch
    (filter ← readFilter args;
     result ← getMessages sdk filter;
     let messages := messagesOf result in
     if bool_decide (messages = [])
     then Return "No messages found"
     else Return (join (nl ++ nl) (map formatMessage messages)))
    (fun error => Throw (ErrorObj ("Failed to read messages: " ++ errorText error))).

(** [const { limit = 50 } = args] *)
Definition conversationsLimit (args : JsValue) : JsValue :=
  match getProperty "limit" args with
  | JUndefined => JNumber (Fin 50)
  | v => v
  end.

(** The query of [getConversations]: ten times the limit, own messages
    included. *)
Definition conversationsFilter (args : JsValue) : MessageFilter :=
  {| filter_limit :=
       Some (JNumber (multiply (ToNumber rt (conversationsLimit args)) (Fin 10)));
     excludeOwnMessages := false;
     filter_sender := None;
     filter_unreadOnly := false |}.

Definition conversationsSeparator : string := nl ++ nl ++ "---" ++ nl ++ nl.

(** [slice(0, limit)] converts [limit] with [ToIntegerOrInfinity]. *)
Definition getConversations (args : JsValue) : Completion string :=
  tryCatch
    (let limit := conversationsLimit args in
     result ← getMessages sdk (conversationsFilter args);
     let messages := messagesOf result in
     if bool_decide (messages = [])
     then Return "No conversations found"
     else
       let conversations :=
         selectConversations messages (ToIntegerOrInfinity (ToNumber rt limit)) in
       Return (join conversationsSeparator (map formatConversation conversations)))
    (fun error => Throw (ErrorObj ("Failed to get conversations: " ++ errorText error))).

Definition formatDetails (chatId : string) (total : nat) (d : Details) : string :=
  let participantsList := orElse (join ", " (d_participants d)) "Unknown" in
  let lastDateStr := match d_lastDate d with
                     | Some lastDate => toLocaleString rt lastDate
                     | None => "Unknown"
                     end in
  "Chat ID: " ++ chatId ++ nl
  ++ "Type: " ++ (if d_isGroupChat d then "Group Chat" else "1-on-1") ++ nl
  ++ "Participants: " ++ participantsList ++ nl
  ++ "Last Message: " ++ d_lastMessage d ++ nl
  ++ "Last Message Date: " ++ lastDateStr ++ nl
  ++ "Unread Count: " ++ pretty (d_unreadCount d) ++ nl
  ++ "Total Messages: " ++ pretty total.

Definition detailsFilter : MessageFilter :=
  {| filter_limit := Some (JNumber (Fin 100));
     excludeOwnMessages := false;
     filter_sender := None;
     filter_unreadOnly := false |}.

Definition getConversationDetails (chatId : string) : Completion string :=
  tryCatch
    (throwIf (String.eqb chatId "") "Chat ID is required";;
     result ← getMessages sdk detailsFilter;
     let allMessages := messagesOf result in
     let chatMessages := filter (fun msg => msg_chatId msg = chatId) allMessages in
     if bool_decide (chatMessages = [])
     then Return ("No messages found for chat ID: " ++ chatId)
     else Return (formatDetails chatId (length chatMessages)
                                (collectDetails chatMessages)))
    (fun error =>
       Throw (ErrorObj ("Failed to get conversation details: " ++ errorText error))).
End Methods.
End PhotonClient.

(** What the handlers need of a client: its four asynchronous methods. *)
Record Client := {
  client_sendMessage : JsValue -> Completion string;
  client_readMessages : JsValue -> Completion string;
  client_getConversations : JsValue -> Completion string;
  client_getConversationDetails : string -> Completion string;
}.

(** [new PhotonClient()] over a given SDK. *)
Definition newPhotonClient (rt : Runtime) (sdk : IMessageSDK) : Client :=
  {| client_sendMessage := PhotonClient.sendMessage sdk;
     client_readMessages := PhotonClient.readMessages rt sdk;
     client_getConversations := PhotonClient.getConversations rt sdk;
     client_getConversationDetails := PhotonClient.getConversationDetails rt sdk |}.

(** ** Tool handlers (tools/imessage.ts) *)

Record TextContent := { text : string }.

Record CallToolResult := {
  content : list TextContent;
  isError : bool;
}.

Definition isNull (v : JsValue) : bool :=
  match v with
  | JNull => true
  | _ => false
  end.

Definition typeIs (v : JsValue) (t : JsType) : bool := bool_decide (typeof v = t).

Definition isSendMessageArgs (args : JsValue) : bool :=
  typeIs args TObject
  && negb (isNull args)
  && hasProperty "recipient" args
  && hasProperty "text" args
  && typeIs (getProperty "recipient" args) TString
  && typeIs (getProperty "text" args) TString.

Definition isReadMessagesArgs (args : JsValue) : bool :=
  typeIs args TObject && negb (isNull args).

Definition isGetConversationsArgs (args : JsValue) : bool :=
  typeIs args TObject && negb (isNull args).

(** The envelope of a successful call and the one built in every [catch]. *)
Definition textResult (result : string) : CallToolResult :=
  {| content := [ {| text := result |} ]; isError := false |}.

Definition errorResult (error : Thrown) : CallToolResult :=
  {| content := [ {| text := "Error: " ++ errorText error |} ]; isError := true |}.

Definition handleSendMessageTool (client : Client) (args : JsValue)
  : Completion CallToolResult :=
  tryCatch
    (throwIf (negb (truthy args)) "No arguments provided";;
     throwIf (negb (isSendMessageArgs args))
             "Invalid arguments for photon_send_message. Required: recipient, text";;
     result ← client_sendMessage client args;
     Return (textResult result))
    (fun error => Return (errorResult error)).

Definition handleReadMessagesTool (client : Client) (args : JsValue)
  : Completion CallToolResult :=
  tryCatch
    (throwIf (negb (truthy args)) "No arguments provided";;
     throwIf (negb (isReadMessagesArgs args))
             "Invalid arguments for photon_read_messages";;
     result ← client_readMessages client args;
     Return (textResult result))
    (fun error => Return (errorResult error)).

Definition handleGetConversationsTool (client : Client) (args : JsValue)
  : Completion CallToolResult :=
  tryCatch
    (throwIf (negb (truthy args)) "No arguments provided";;
     throwIf (negb (isGetConversationsArgs args))
             "Invalid arguments for photon_get_conversations";;
     result ← client_getConversations client args;
     Return (textResult result))
    (fun error => Return (errorResult error)).

Definition handleGetConversationDetailsTool (client : Client) (args : JsValue)
  : Completion CallToolResult :=
  tryCatch
    (throwIf (negb (truthy args) || negb (typeIs args TObject)
              || negb (hasProperty "chatId" args))
             "chatId is required";;
     match getProperty "chatId" args with
     | JString chatId =>
         result ← client_getConversationDetails client chatId;
         Return (textResult result)
     | _ => Throw (ErrorObj "chatId must be a string")
     end)
    (fun error => Return (errorResult error)).

(** ** The dispatcher (server.ts) *)

Inductive ErrorCode :=
  | ParseError
  | InvalidRequest
  | MethodNotFound
  | InvalidParams
  | InternalError.

(** [new McpError(code, message)] *)
Record McpError := {
  code : ErrorCode;
  message : string;
}.

(** What the [CallToolRequestSchema] handler does with a request: it returns
    the promise of a tool handler, or throws an [McpError]. *)
Inductive RequestOutcome :=
  | Handled (result : Completion CallToolResult)
  | Fault (error : McpError).

Definition toolNames : list string :=
  [ "photon_send_message"; "photon_read_messages";
    "photon_get_conversations"; "photon_get_conversation_details" ].

(** The [switch (name)] registered by [PhotonServer.setupHandlers]. *)
Definition callTool (client : Client) (name : string) (args : JsValue)
  : RequestOutcome :=
  if String.eqb name "photon_send_message"
  then Handled (handleSendMessageTool client args)
  else if String.eqb name "photon_read_messages"
  then Handled (handleReadMessagesTool client args)
  else if String.eqb name "photon_get_conversations"
  then Handled (handleGetConversationsTool client args)
  else if String.eqb name "photon_get_conversation_details"
  then Handled (handleGetConversationDetailsTool client args)
  else Fault {| code := MethodNotFound; message := "Unknown tool: " ++ name |}.

(** The same [switch], as registered by [createStandaloneServer]. *)
Definition standaloneCallTool (client : Client) (name : string) (args : JsValue)
  : RequestOutcome :=
  if String.eqb name "photon_send_message"
  then Handled (handleSendMessageTool client args)
  else if String.eqb name "photon_read_messages"
  then Handled (handleReadMessagesTool client args)
  else if String.eqb name "photon_get_conversations"
  then Handled (handleGetConversationsTool client args)
  else if String.eqb name "photon_get_conversation_details"
  then Handled (handleGetConversationDetailsTool client args)
  else Fault {| code := MethodNotFound; message := "Unknown tool: " ++ name |}.

(** ** Sample data used by the examples *)

(** A runtime for the examples, none of which converts a string to a
    number: dates print as their time value. *)
Definition sampleRuntime : Runtime :=
  {| toLocaleString := fun t => pretty t;
     StringToNumber := fun _ => NaN |}.

Definition mkMessage (chat sender body : string) (date : Z) (fromMe read : bool)
  : Message :=
  {| msg_text := Some body; msg_date := date; msg_sender := sender;
     msg_service := "iMessage"; msg_chatId := chat; msg_isFromMe := fromMe;
     msg_isRead := read; msg_isGroupChat := false |}.

(** An SDK that accepts every recipient, delivers every message and answers
    every query with the given snapshot. *)
Definition snapshotSDK (snapshot : list Message) : IMessageSDK :=
  {| asRecipient := fun r => Return r;
     send := fun _ _ => Return tt;
     getMessages := fun _ => Return (ResultArray snapshot) |}.

(** An SDK whose every call fails with the given error. *)
Definition failingSDK (error : Thrown) : IMessageSDK :=
  {| asRecipient := fun _ => Throw error;
     send := fun _ _ => Throw error;
     getMessages := fun _ => Throw error |}.

Definition threeMessages : list Message :=
  [ mkMessage "chat-a" "+15550001" "first" 100 false false;
    mkMessage "chat-b" "+15550002" "second" 300 false true;
    mkMessage "chat-a" "me@example.com" "third" 200 true true ].

(** Three records of one chat, the last two with the same timestamp. *)
Definition tiedMessages : list Message :=
  [ mkMessage "chat-a" "+15550001" "early" 100 false false;
    mkMessage "chat-a" "+15550001" "first of the tie" 500 false false;
    mkMessage "chat-a" "+15550001" "second of the tie" 500 false false ].

(** A client whose every method throws the given value. *)
Definition throwingClient (error : Thrown) : Client :=
  {| client_sendMessage := fun _ => Throw error;
     client_readMessages := fun _ => Throw error;
     client_getConversations := fun _ => Throw error;
     client_getConversationDetails := fun _ => Throw error |}.

(** ** Vocabulary of the properties *)

(** The records of one conversation, in snapshot order. *)
Definition recordsOf (key : string) (messages : list Message) : list Message :=
  filter (fun msg => msg_chatId msg = key) messages.

(** A record counts as unread when it was not sent by the local user and is
    not marked read. *)
Definition isUnread (msg : Message) : bool :=
  negb (msg_isFromMe msg) && negb (msg_isRead msg).

Definition unreadIn (records : list Message) : nat :=
  length (filter (fun msg => isUnread msg = true) records).

(** [date] and [body] are those of the first record of [records] that
    carries the greatest timestamp: everything before it is strictly
    earlier, nothing after it is later. *)
Definition FirstLatest (records : list Message) (date : Z) (body : string) : Prop :=
  exists pre m post,
    records = (pre ++ m :: post)%list
    /\ Forall (fun y => msg_date y < msg_date m) pre
    /\ Forall (fun y => msg_date y <= msg_date m) post
    /\ date = msg_date m
    /\ body = textOf m.

(** [handles] holds exactly the senders of the records of others. *)
Definition SendersOfOthers (records : list Message) (handles : list string) : Prop :=
  NoDup handles
  /\ forall p, p ∈ handles <->
       exists m, m ∈ records /\ msg_isFromMe m = false /\ msg_sender m = p.

(** An entry of the conversation map summarises the records of its chat. *)
Definition Summarises (records : list Message) (key : string)
    (conv : ConversationEntry) : Prop :=
  chatId conv = key
  /\ unreadCount conv = unreadIn records
  /\ SendersOfOthers records (participants conv)
  /\ FirstLatest records (lastDate conv) (lastMessage conv).



(** [text] contains [fragment]. *)
Definition contains (fragment text : string) : Prop :=
  exists before after, text = before ++ fragment ++ after.

(** Both [recipient] and [text] are present, non-empty strings. *)
Definition sendArgsComplete (props : gmap string JsValue) : Prop :=
  exists recipient body,
    props !! "recipient" = Some (JString recipient)
    /\ props !! "text" = Some (JString body)
    /\ recipient <> "" /\ body <> "".

(** ** Tool definitions and tool listing (tools/imessage.ts, server.ts) *)

(** One entry of [inputSchema.properties]. *)
Record PropertySchema := {
  prop_type : JsType;
  prop_description : string;
  prop_default : option JsValue;
}.

(** A [Tool]: its name, description and the [properties] and [required]
    parts of its input schema (whose [type] is always ["object"]). *)
Record Tool := {
  tool_name : string;
  tool_description : string;
  tool_properties : list (string * PropertySchema);
  tool_required : list string;
}.

Definition sendMessageToolDefinition : Tool :=
  {| tool_name := "photon_send_message";
     tool_description :=
       "Sends an iMessage to a recipient. "
       ++ "Use this to send text messages to phone numbers or email addresses. "
       ++ "The recipient can be a phone number (e.g., '+1234567890') or email address.";
     tool_properties :=
       [ ("recipient",
          {| prop_type := TString;
             prop_description :=
               "Recipient phone number (e.g., '+1234567890') or email address";
             prop_default := None |});
         ("text",
          {| prop_type := TString;
             prop_description := "Message text to send";
             prop_default := None |});
         ("chatId",
          {| prop_type := TString;
             prop_description :=
               "Optional chat ID if continuing an existing conversation";
             prop_default := None |}) ];
     tool_required := [ "recipient"; "text" ] |}.

Definition readMessagesToolDefinition : Tool :=
  {| tool_name := "photon_read_messages";
     tool_description :=
       "Reads messages from an iMessage conversation. "
       ++ "Use this to retrieve message history from a specific chat or recipient. "
       ++ "Returns messages with timestamps and sender information.";
     tool_properties :=
       [ ("chatId",
          {| prop_type := TString;
             prop_description :=
               "Chat/conversation ID (optional if recipient is provided)";
             prop_default := None |});
         ("recipient",
          {| prop_type := TString;
             prop_description :=
               "Recipient phone number or email to filter messages by sender";
             prop_default := None |});
         ("limit",
          {| prop_type := TNumber;
             prop_description := "Maximum number of messages to return (default: 50)";
             prop_default := Some (JNumber (Fin 50)) |});
         ("unreadOnly",
          {| prop_type := TBoolean;
             prop_description := "Only return unread messages (default: false)";
             prop_default := Some (JBool false) |}) ];
     tool_required := [] |}.

Definition getConversationsToolDefinition : Tool :=
  {| tool_name := "photon_get_conversations";
     tool_description :=
       "Gets a list of all iMessage conversations. "
       ++ "Use this to see all active chats with their last messages and unread counts. "
       ++ "Returns conversation IDs that can be used with other tools.";
     tool_properties :=
       [ ("limit",
          {| prop_type := TNumber;
             prop_description :=
               "Maximum number of conversations to return (default: 50)";
             prop_default := Some (JNumber (Fin 50)) |}) ];
     tool_required := [] |}.

Definition getConversationDetailsToolDefinition : Tool :=
  {| tool_name := "photon_get_conversation_details";
     tool_description :=
       "Gets detailed information about a specific conversation by chat ID. "
       ++ "Use this to get participant information, last message, and unread count for a specific chat.";
     tool_properties :=
       [ ("chatId",
          {| prop_type := TString;
             prop_description := "Chat/conversation ID";
             prop_default := None |}) ];
     tool_required := [ "chatId" ] |}.

(** The answer of the [ListToolsRequestSchema] handler of both servers. *)
Definition listTools : list Tool :=
  [ sendMessageToolDefinition; readMessagesToolDefinition;
    getConversationsToolDefinition; getConversationDetailsToolDefinition ].

(** ** Construction of the client and shutdown (client.ts, server.ts) *)

(** The two console functions the constructor replaces; [F] is the type of
    a console function. *)
Record Console (F : Type) := {
  console_log : F;
  console_info : F;
}.

Arguments console_log {F} _.
Arguments console_info {F} _.

(** The constructor of [PhotonClient], over the state of the console:
    [construct] stands for [new IMessageSDK({ debug: false, maxConcurrent: 5 })]
    and [noop] for [() => {}]. The console is restored inside the [try]
    block, after the SDK has been built. *)
Definition constructPhotonClient {F SDK} (noop : F)
    (construct : Console F -> Completion SDK) (console : Console F)
  : Console F * Completion SDK :=
  let originalConsoleLog := console_log console in
  let originalConsoleInfo := console_info console in
  let silenced := {| console_log := noop; console_info := noop |} in
  match construct silenced with
  | Return sdk =>
      ({| console_log := originalConsoleLog; console_info := originalConsoleInfo |},
       Return sdk)
  | Throw error =>
      (silenced,
       Throw (ErrorObj ("Failed to initialize Photon SDK: " ++ errorText error)))
  end.

(** What the shutdown handler of [PhotonServer] does, in order. *)
Inductive ShutdownStep :=
  | ClientClosed
  | ServerClosed
  | ErrorLogged (label : string) (error : Thrown)
  | ProcessExit (status : Z).

(** [cleanup], registered for SIGINT and SIGTERM: close the client, then the
    server; log what either throws; exit with status 0. *)
Definition cleanup (closeClient closeServer : Completion unit) : list ShutdownStep :=
  match closeClient with
  | Throw error => [ ErrorLogged "Error during cleanup:" error; ProcessExit 0 ]
  | Return _ =>
      match closeServer with
      | Throw error =>
          [ ClientClosed; ErrorLogged "Error during cleanup:" error; ProcessExit 0 ]
      | Return _ => [ ClientClosed; ServerClosed; ProcessExit 0 ]
      end
  end.

(** ** Further vocabulary *)

(** An SDK that answers every query with the wrapper form of what [sdk]
    answers. *)
Definition wrappingSDK (sdk : IMessageSDK) : IMessageSDK :=
  {| asRecipient := asRecipient sdk;
     send := send sdk;
     getMessages := fun filter =>
       result ← getMessages sdk filter;
       Return (ResultObject (Some (messagesOf result))) |}.

(** The distinct elements of a list, in the order of their first
    occurrence. *)
Fixpoint firstOccurrences (l : list string) : list string :=
  match l with
  | [] => []
  | x :: rest => x :: filter (fun y => y <> x) (firstOccurrences rest)
  end.


(** The entry of the conversation list and the locals of the detail view
    hold the same summary. *)
Definition SameSummary (conv : ConversationEntry) (d : Details) : Prop :=
  d_participants d = participants conv
  /\ d_lastMessage d = lastMessage conv
  /\ d_lastDate d = Some (lastDate conv)
  /\ d_unreadCount d = unreadCount conv.

(** A snapshot with a group chat, a blank text and a blank sender. *)
Definition mixedMessages : list Message :=
  [ {| msg_text := None; msg_date := 50; msg_sender := "";
       msg_service := ""; msg_chatId := "group-1"; msg_isFromMe := false;
       msg_isRead := false; msg_isGroupChat := true |};
    mkMessage "chat-a" "+15550001" "hello" 50 false true;
    mkMessage "group-1" "+15550003" "" 70 false false ].

(** ** Vocabulary of argument validation *)

(** The arguments of send-message are valid: an object whose [recipient]
    and [text] are strings. *)
Definition SendArgumentsValid (args : JsValue) : Prop :=
  exists props recipient body,
    args = JObject props
    /\ props !! "recipient" = Some (JString recipient)
    /\ props !! "text" = Some (JString body).

(** The arguments of read-messages and of get-conversations are valid: any
    object (arrays included) other than [null]. *)
Definition ObjectArgument (args : JsValue) : Prop :=
  typeof args = TObject /\ args <> JNull.

(** The arguments of get-conversation-details are valid and name the chat
    [key]: an object whose [chatId] is the string [key]. *)
Definition DetailsArgumentsValid (args : JsValue) (key : string) : Prop :=
  exists props, args = JObject props /\ props !! "chatId" = Some (JString key).

(** How the outcome of a client call is reported to the caller: its text,
    not flagged, or the text of the failure, flagged as error. *)
Definition reported (outcome : Completion string) : CallToolResult :=
  match outcome with
  | Return result => {| content := [ {| text := result |} ]; isError := false |}
  | Throw error =>
      {| content := [ {| text := "Error: " ++ errorText error |} ]; isError := true |}
  end.

(** ** The model at work *)

Example ToString_samples :
  ToString (JArray [JNumber (Fin 1); JNull; JString "a"]) = "1,,a"
  /\ ToString (JNumber (Fin (-12))) = "-12"
  /\ truthy (JString "") = false
  /\ hasProperty "text" (JObject {[ "text" := JUndefined ]}) = true
  /\ getProperty "text" (JObject {[ "recipient" := JString "x" ]}) = JUndefined.
Proof. vm_compute. repeat split. Qed.

Example send_scenario :
  handleSendMessageTool (newPhotonClient sampleRuntime (snapshotSDK []))
    (JObject {[ "recipient" := JString "+15551234567"; "text" := JString "hi" ]})
  = Return (textResult "Message sent successfully to +15551234567").
Proof. reflexivity. Qed.

Example details_scenario :
  handleGetConversationDetailsTool
    (newPhotonClient sampleRuntime (snapshotSDK threeMessages))
    (JObject {[ "chatId" := JString "chat-a" ]})
  = Return (textResult
      ("Chat ID: chat-a" ++ nl ++ "Type: 1-on-1" ++ nl
       ++ "Participants: +15550001" ++ nl ++ "Last Message: third" ++ nl
       ++ "Last Message Date: 200" ++ nl ++ "Unread Count: 1" ++ nl
       ++ "Total Messages: 2")).
Proof. reflexivity. Qed.

Example conversations_scenario :
  PhotonClient.getConversations sampleRuntime (snapshotSDK threeMessages) (JObject ∅)
  = Return ("Chat ID: chat-b" ++ nl ++ "Participants: +15550002" ++ nl
            ++ "Last Message: second"
            ++ PhotonClient.conversationsSeparator
            ++ "Chat ID: chat-a" ++ nl ++ "Participants: +15550001" ++ nl
            ++ "Last Message: third (1 unread)").
Proof. reflexivity. Qed.

Example sdk_failure_scenario :
  handleReadMessagesTool
    (newPhotonClient sampleRuntime (failingSDK (ErrorObj "database is locked")))
    (JObject ∅)
  = Return (errorResult (ErrorObj "Failed to read messages: database is locked")).
Proof. reflexivity. Qed.

Example empty_chat_id_is_rejected_by_the_client :
  handleGetConversationDetailsTool (newPhotonClient sampleRuntime (snapshotSDK []))
    (JObject {[ "chatId" := JString "" ]})
  = Return (errorResult
              (ErrorObj "Failed to get conversation details: Chat ID is required")).
Proof. reflexivity. Qed.

(** ** Facts about the insertion-ordered map *)

Section MapFacts.
Context {V : Type}.
Implicit Types (m : list (string * V)) (k : string) (v : V).

Lemma mapHas_get k m : mapHas k m = bool_decide (is_Some (mapGet k m)).
Proof.
  unfold mapHas. apply bool_decide_ext.
  induction m as [|[k' v'] m IH]; simpl.
  - split; [intros H; inversion H | intros [? ?]; discriminate].
  - rewrite elem_of_cons. destruct (decide (k' = k)) as [->|Hne].
    + split; [eauto | auto].
    + rewrite <- IH. split; [intros [?|?]; [congruence | done] | auto].
Qed.

Lemma mapGet_set_eq k v m : mapGet k (mapSet k v m) = Some v.
Proof.
  induction m as [|[k' v'] m IH]; simpl.
  - by rewrite decide_True.
  - destruct (decide (k' = k)) as [->|Hne]; simpl.
    + by rewrite decide_True.
    + by rewrite decide_False.
Qed.

Lemma mapGet_set_ne k k' v m : k <> k' -> mapGet k' (mapSet k v m) = mapGet k' m.
Proof.
  intros Hne. induction m as [|[k0 v0] m IH]; simpl.
  - by rewrite decide_False.
  - destruct (decide (k0 = k)) as [->|Hne0]; simpl.
    + by rewrite !decide_False.
    + by rewrite IH.
Qed.

Lemma mapSet_keys k v m :
  (mapSet k v m).*1 = if mapHas k m then m.*1 else (m.*1 ++ [k])%list.
Proof.
  unfold mapHas. induction m as [|[k0 v0] m IH].
  - case_bool_decide as Hin; [inversion Hin | done].
  - cbn [mapSet]. destruct (decide (k0 = k)) as [->|Hne].
    + rewrite bool_decide_true; [done | rewrite fmap_cons; by left].
    + rewrite !fmap_cons, IH. cbn [fst].
      destruct (decide (k ∈ m.*1)) as [Hin|Hin].
      * rewrite !bool_decide_true; [done | by right | done].
      * rewrite !bool_decide_false; [done | | done].
        intros [?|?]%elem_of_cons; [congruence | done].
Qed.

Lemma mapGet_elem_of k v m : mapGet k m = Some v -> (k, v) ∈ m.
Proof.
  induction m as [|[k0 v0] m IH]; simpl; [done |].
  destruct (decide (k0 = k)) as [->|Hne].
  - intros [= ->]. by left.
  - intros H. right. auto.
Qed.

Lemma elem_of_mapGet k v m : NoDup m.*1 -> (k, v) ∈ m -> mapGet k m = Some v.
Proof.
  induction m as [|[k0 v0] m IH]; simpl; intros Hnd Hin.
  - inversion Hin.
  - apply NoDup_cons in Hnd as [Hnotin Hnd].
    apply elem_of_cons in Hin as [[= -> ->]|Hin].
    + by rewrite decide_True.
    + destruct (decide (k0 = k)) as [->|Hne]; [| auto].
      exfalso. apply Hnotin. apply list_elem_of_fmap. by exists (k, v).
Qed.

Lemma values_mapGet v m : v ∈ m.*2 -> NoDup m.*1 -> exists k, mapGet k m = Some v.
Proof.
  intros Hin Hnd. apply list_elem_of_fmap in Hin as [[k v'] [-> Hin]].
  exists k. by apply elem_of_mapGet.
Qed.
End MapFacts.

(** ** One more record: how each component of a summary evolves *)

Lemma unreadIn_snoc records x :
  unreadIn (records ++ [x]) = (unreadIn records + (if isUnread x then 1 else 0))%nat.
Proof.
  unfold unreadIn. rewrite filter_app, length_app. f_equal.
  rewrite filter_cons, filter_nil. destruct (isUnread x); by case_decide.
Qed.

Lemma sendersOfOthers_nil : SendersOfOthers [] [].
Proof.
  split; [constructor |]. intros p. split.
  - intros H. inversion H.
  - intros (m & H & _). inversion H.
Qed.

Lemma elem_of_setAdd p x s : p ∈ setAdd x s <-> p = x \/ p ∈ s.
Proof.
  unfold setAdd. case_decide as Hin.
  - split; [auto | by intros [->|?]].
  - rewrite elem_of_app, list_elem_of_singleton. tauto.
Qed.

Lemma NoDup_setAdd x s : NoDup s -> NoDup (setAdd x s).
Proof.
  unfold setAdd. intros Hnd. case_decide as Hin; [done |].
  apply NoDup_app. split_and!; [done | | apply NoDup_singleton].
  intros y Hy Hy'. apply list_elem_of_singleton in Hy' as ->. done.
Qed.

Lemma sendersOfOthers_snoc records handles x :
  SendersOfOthers records handles ->
  SendersOfOthers (records ++ [x])
    (if msg_isFromMe x then handles else setAdd (msg_sender x) handles).
Proof.
  intros [Hnd Hiff]. destruct (msg_isFromMe x) eqn:Hme.
  - split; [done |]. intros p. rewrite Hiff. split.
    + intros (m & Hin & Hm). exists m. split; [| done].
      apply elem_of_app. by left.
    + intros (m & Hin & Hfrom & Hs). apply elem_of_app in Hin as [Hin|Hin].
      * by exists m.
      * apply list_elem_of_singleton in Hin as ->. congruence.
  - split; [by apply NoDup_setAdd |]. intros p.
    rewrite elem_of_setAdd, Hiff. split.
    + intros [->|(m & Hin & Hm)].
      * exists x. split; [| done]. apply elem_of_app. right. by left.
      * exists m. split; [| done]. apply elem_of_app. by left.
    + intros (m & Hin & Hfrom & Hs). apply elem_of_app in Hin as [Hin|Hin].
      * right. by exists m.
      * apply list_elem_of_singleton in Hin as ->. by left.
Qed.

Lemma firstLatest_single x : FirstLatest [x] (msg_date x) (textOf x).
Proof. exists [], x, []. by repeat split. Qed.

Lemma firstLatest_snoc records date body x :
  FirstLatest records date body ->
  FirstLatest (records ++ [x])
    (if msg_date x >? date then msg_date x else date)
    (if msg_date x >? date then textOf x else body).
Proof.
  intros (pre & m & post & -> & Hpre & Hpost & -> & ->).
  destruct (msg_date x >? msg_date m) eqn:Hcmp.
  - apply Z.gtb_lt in Hcmp.
    exists (pre ++ m :: post)%list, x, []. split_and!; try done.
    apply Forall_app. split.
    + eapply Forall_impl; [exact Hpre |]. simpl. lia.
    + constructor; [lia |]. eapply Forall_impl; [exact Hpost |]. simpl. lia.
  - assert (msg_date x <= msg_date m) by (rewrite Z.gtb_ltb in Hcmp; lia).
    exists pre, m, (post ++ [x])%list. split_and!; try done.
    + by rewrite <- app_assoc.
    + apply Forall_app. split; [done |]. by constructor.
Qed.

Lemma firstLatest_greatest records date body :
  FirstLatest records date body -> Forall (fun y => msg_date y <= date) records.
Proof.
  intros (pre & m & post & -> & Hpre & Hpost & -> & _).
  apply Forall_app. split.
  - eapply Forall_impl; [exact Hpre |]. simpl. lia.
  - constructor; [lia | done].
Qed.

Lemma firstLatest_nonempty records date body :
  FirstLatest records date body -> records <> [].
Proof. intros (pre & m & post & -> & _). by destruct pre. Qed.

(** ** The loop of [getConversations] *)

Lemma summarises_update records key conv x :
  Summarises records key conv ->
  Summarises (records ++ [x]) key (updateEntry conv x).
Proof.
  intros (Hid & Hunread & Hsenders & Hlatest).
  pose proof (sendersOfOthers_snoc _ _ x Hsenders) as Hs.
  pose proof (firstLatest_snoc _ _ _ x Hlatest) as Hl.
  unfold Summarises, updateEntry. rewrite unreadIn_snoc. unfold isUnread.
  destruct (msg_date x >? lastDate conv), (msg_isFromMe x), (msg_isRead x);
    simpl in *; split_and!; try done; lia.
Qed.

Lemma summarises_first x :
  Summarises [x] (msg_chatId x) (updateEntry (newEntry x) x).
Proof.
  pose proof (sendersOfOthers_snoc [] [] x sendersOfOthers_nil) as Hs.
  pose proof (firstLatest_single x) as Hl.
  unfold Summarises, updateEntry, unreadIn, isUnread. simpl.
  rewrite filter_cons, filter_nil.
  replace (msg_date x >? msg_date x) with false by (symmetry; rewrite Z.gtb_ltb; lia).
  destruct (msg_isFromMe x), (msg_isRead x); simpl in *;
    split_and!; try done; by case_decide.
Qed.

Lemma groupStep_get key m msg :
  mapGet key (groupStep m msg) =
    if decide (msg_chatId msg = key)
    then Some (updateEntry (default (newEntry msg) (mapGet key m)) msg)
    else mapGet key m.
Proof.
  unfold groupStep. rewrite mapHas_get.
  destruct (mapGet (msg_chatId msg) m) as [c|] eqn:Hget.
  - rewrite bool_decide_true by eauto. rewrite Hget. case_decide as Hk.
    + subst key. by rewrite mapGet_set_eq, Hget.
    + by rewrite mapGet_set_ne.
  - rewrite bool_decide_false by (intros [? ?]; discriminate).
    rewrite mapGet_set_eq. case_decide as Hk.
    + subst key. by rewrite mapGet_set_eq, Hget.
    + by rewrite !mapGet_set_ne.
Qed.

Lemma groupStep_keys m msg :
  (groupStep m msg).*1 =
    if mapHas (msg_chatId msg) m then m.*1 else (m.*1 ++ [msg_chatId msg])%list.
Proof.
  unfold groupStep. destruct (mapHas (msg_chatId msg) m) eqn:Hhas.
  - rewrite mapHas_get in Hhas. apply bool_decide_eq_true in Hhas as [c Hc].
    rewrite Hc, mapSet_keys, mapHas_get, Hc.
    by rewrite bool_decide_true by eauto.
  - rewrite mapGet_set_eq, mapSet_keys, mapHas_get, mapGet_set_eq.
    rewrite bool_decide_true by eauto. by rewrite mapSet_keys, Hhas.
Qed.

Lemma groupMessages_snoc messages x :
  groupMessages (messages ++ [x]) = groupStep (groupMessages messages) x.
Proof. unfold groupMessages. by rewrite fold_left_app. Qed.

Lemma recordsOf_snoc key messages x :
  recordsOf key (messages ++ [x]) =
    if decide (msg_chatId x = key) then (recordsOf key messages ++ [x])%list
    else recordsOf key messages.
Proof.
  unfold recordsOf. rewrite filter_app, filter_cons, filter_nil.
  case_decide; [done | by rewrite app_nil_r].
Qed.

(** The invariant of the loop: the keys of the map are distinct, and every
    chat id is mapped to the summary of its records, or to nothing when it
    has none. *)
Lemma groupMessages_invariant messages :
  NoDup (groupMessages messages).*1
  /\ forall key,
       match mapGet key (groupMessages messages) with
       | Some conv => Summarises (recordsOf key messages) key conv
       | None => recordsOf key messages = []
       end.
Proof.
  induction messages as [|x messages [IHnd IH]] using rev_ind.
  - split; [constructor | done].
  - rewrite groupMessages_snoc. split.
    + rewrite groupStep_keys. destruct (mapHas _ _) eqn:Hhas; [done |].
      apply NoDup_app. split_and!; [done | | apply NoDup_singleton].
      intros k Hk Hk'. apply list_elem_of_singleton in Hk' as ->.
      unfold mapHas in Hhas. by apply bool_decide_eq_false in Hhas.
    + intros key. rewrite groupStep_get, recordsOf_snoc. specialize (IH key).
      case_decide as Hk; [| done].
      destruct (mapGet key (groupMessages messages)) as [c|]; simpl.
      * by apply summarises_update.
      * rewrite IH. subst key. apply summarises_first.
Qed.

Lemma groupMessages_entries messages conv :
  conv ∈ (groupMessages messages).*2 ->
  mapGet (chatId conv) (groupMessages messages) = Some conv
  /\ Summarises (recordsOf (chatId conv) messages) (chatId conv) conv.
Proof.
  intros Hin. destruct (groupMessages_invariant messages) as [Hnd Hinv].
  destruct (values_mapGet _ _ Hin Hnd) as [key Hget].
  specialize (Hinv key). rewrite Hget in Hinv.
  pose proof Hinv as [Hid _]. by rewrite Hid.
Qed.

Lemma groupMessages_covers messages x :
  x ∈ messages ->
  exists conv, mapGet (msg_chatId x) (groupMessages messages) = Some conv
               /\ conv ∈ (groupMessages messages).*2.
Proof.
  intros Hin. destruct (groupMessages_invariant messages) as [_ Hinv].
  specialize (Hinv (msg_chatId x)).
  destruct (mapGet _ _) as [conv|] eqn:Hget.
  - exists conv. split; [done |]. apply list_elem_of_fmap.
    exists (msg_chatId x, conv). split; [done |]. by apply mapGet_elem_of.
  - exfalso. assert (x ∈ recordsOf (msg_chatId x) messages) as Hx
      by (by apply list_elem_of_filter).
    rewrite Hinv in Hx. inversion Hx.
Qed.

Lemma groupMessages_chatIds messages :
  chatId <$> (groupMessages messages).*2 = (groupMessages messages).*1.
Proof.
  destruct (groupMessages_invariant messages) as [Hnd Hinv].
  assert (forall key conv, (key, conv) ∈ groupMessages messages -> chatId conv = key)
    as Hkeys.
  { intros key conv Hin. apply (elem_of_mapGet _ _ _ Hnd) in Hin.
    specialize (Hinv key). rewrite Hin in Hinv. by destruct Hinv. }
  clear Hnd Hinv. induction (groupMessages messages) as [|[k c] m IH]; [done |].
  rewrite !fmap_cons. cbn [fst snd]. f_equal.
  - apply Hkeys. by left.
  - apply IH. intros key conv Hin. apply Hkeys. by right.
Qed.

(** ** The loop of [getConversationDetails] *)

Lemma collectDetails_snoc records x :
  collectDetails (records ++ [x]) = detailStep (collectDetails records) x.
Proof. unfold collectDetails. by rewrite fold_left_app. Qed.

Lemma collectDetails_invariant records :
  let d := collectDetails records in
  d_unreadCount d = unreadIn records
  /\ SendersOfOthers records (d_participants d)
  /\ match d_lastDate d with
     | Some date => FirstLatest records date (d_lastMessage d)
     | None => records = []
     end.
Proof.
  induction records as [|x records (IHu & IHs & IHl)] using rev_ind.
  - split_and!; [done | apply sendersOfOthers_nil | done].
  - rewrite collectDetails_snoc. simpl in *.
    pose proof (sendersOfOthers_snoc _ _ x IHs) as Hs.
    rewrite unreadIn_snoc. unfold detailStep, isUnread. cbn.
    split_and!.
    + rewrite IHu. destruct (msg_isFromMe x), (msg_isRead x); simpl; lia.
    + by destruct (msg_isFromMe x).
    + destruct (d_lastDate (collectDetails records)) as [date|].
      * pose proof (firstLatest_snoc _ _ _ x IHl) as Hl.
        by destruct (msg_date x >? date).
      * rewrite IHl. apply firstLatest_single.
Qed.

(** ** Sorting and slicing *)

Lemma insertBy_Permutation {A} (compare : A -> A -> Z) x l :
  insertBy compare x l ≡ₚ x :: l.
Proof.
  induction l as [|y l IH]; simpl; [done |].
  destruct (compare x y <=? 0); [done |].
  rewrite IH. apply Permutation_swap.
Qed.

Lemma sortBy_Permutation {A} (compare : A -> A -> Z) l : sortBy compare l ≡ₚ l.
Proof.
  induction l as [|x l IH]; simpl; [done |].
  by rewrite insertBy_Permutation, IH.
Qed.



(** A stable sort: summaries with the same last date keep their order. *)
Lemma insertBy_stable date x l :
  filter (fun c => lastDate c = date) (insertBy byLastDateDesc x l)
  = filter (fun c => lastDate c = date) (x :: l).
Proof.
  induction l as [|y l IH]; simpl; [done |].
  unfold byLastDateDesc at 1. destruct (lastDate y - lastDate x <=? 0) eqn:Hcmp; [done |].
  apply Z.leb_gt in Hcmp. rewrite (filter_cons _ y), IH, !filter_cons.
  repeat case_decide; try done; lia.
Qed.

Lemma sortBy_stable date l :
  filter (fun c => lastDate c = date) (sortBy byLastDateDesc l)
  = filter (fun c => lastDate c = date) l.
Proof.
  induction l as [|x l IH]; simpl; [done |].
  by rewrite insertBy_stable, !filter_cons, IH.
Qed.

Lemma slice0_take {A} (l : list A) n : 0 <= n -> slice0 l n = take (Z.to_nat n) l.
Proof.
  intros Hn. unfold slice0. rewrite (proj2 (Z.ltb_ge n 0)) by done.
  destruct (Z.le_gt_cases n (Z.of_nat (length l))) as [Hle|Hgt].
  - by rewrite Z.min_l.
  - rewrite Z.min_r by lia. rewrite Nat2Z.id.
    rewrite !take_ge; [done | lia | lia].
Qed.

(** ** Properties of the aggregation *)

Lemma unreadIn_recordsOf key messages :
  unreadIn (recordsOf key messages)
  = length (filter (fun m => msg_chatId m = key
                             /\ msg_isFromMe m = false /\ msg_isRead m = false)
                   messages).
Proof.
  unfold unreadIn, recordsOf. rewrite list_filter_filter. f_equal.
  apply list_filter_iff. intros m. unfold isUnread.
  destruct (msg_isFromMe m), (msg_isRead m); simpl; intuition congruence.
Qed.

(** C3. For every message sequence and every conversation id occurring in
    it, the unread count that the loop of [getConversations] stores in the
    conversation's entry, and the one the loop of [getConversationDetails]
    accumulates over the records of that chat, both equal the number of
    records of the conversation with [isFromMe] false and [isRead] false. *)
Theorem unread_count_counts_unread_records (messages : list Message) (key : string) :
  key ∈ msg_chatId <$> messages ->
  let unread :=
    length (filter (fun m => msg_chatId m = key
                             /\ msg_isFromMe m = false /\ msg_isRead m = false)
                   messages) in
  (exists conv, mapGet key (groupMessages messages) = Some conv
                /\ conv ∈ (groupMessages messages).*2
                /\ chatId conv = key
                /\ unreadCount conv = unread)
  /\ d_unreadCount (collectDetails (filter (fun msg => msg_chatId msg = key) messages))
     = unread.
Proof.
  intros Hkey unread. subst unread. rewrite <- unreadIn_recordsOf.
  apply list_elem_of_fmap in Hkey as (x & -> & Hx). split.
  - destruct (groupMessages_covers _ _ Hx) as (conv & Hget & Hin).
    destruct (groupMessages_invariant messages) as [_ Hinv].
    specialize (Hinv (msg_chatId x)). rewrite Hget in Hinv.
    destruct Hinv as (Hid & Hunread & _). by exists conv.
  - apply (collectDetails_invariant (recordsOf (msg_chatId x) messages)).
Qed.

Lemma unread_count_counts_unread_records_example :
  "chat-a" ∈ msg_chatId <$> threeMessages
  /\ (exists conv, mapGet "chat-a" (groupMessages threeMessages) = Some conv
                   /\ conv ∈ (groupMessages threeMessages).*2
                   /\ chatId conv = "chat-a"
                   /\ unreadCount conv = 1%nat)
  /\ d_unreadCount (collectDetails (filter (fun msg => msg_chatId msg = "chat-a")
                                           threeMessages)) = 1%nat.
Proof.
  assert ("chat-a" ∈ msg_chatId <$> threeMessages) as Hin by (by left).
  split; [exact Hin |].
  exact (unread_count_counts_unread_records threeMessages "chat-a" Hin).
Defined.

Lemma elem_of_recordsOf m key messages :
  m ∈ recordsOf key messages <-> msg_chatId m = key /\ m ∈ messages.
Proof. unfold recordsOf. by rewrite list_elem_of_filter. Qed.

(** C9. For every message sequence, each handle in the participant set of
    an entry built by [getConversations], or accumulated by
    [getConversationDetails] for a chat id, is the sender of a record of
    that conversation whose [isFromMe] flag is false. Hence, if the local
    user's handle [me] is the sender only of records flagged [isFromMe], no
    participant set contains [me]. *)
Theorem participants_are_senders_of_others (messages : list Message) :
  (forall conv p,
     conv ∈ (groupMessages messages).*2 -> p ∈ participants conv ->
     exists m, m ∈ messages /\ msg_chatId m = chatId conv
               /\ msg_isFromMe m = false /\ msg_sender m = p)
  /\ (forall key p,
        p ∈ d_participants (collectDetails (filter (fun msg => msg_chatId msg = key)
                                                   messages)) ->
        exists m, m ∈ messages /\ msg_chatId m = key
                  /\ msg_isFromMe m = false /\ msg_sender m = p)
  /\ (forall me,
        (forall m, m ∈ messages -> msg_sender m = me -> msg_isFromMe m = true) ->
        (forall conv, conv ∈ (groupMessages messages).*2 -> me ∉ participants conv)
        /\ (forall key,
              me ∉ d_participants
                     (collectDetails (filter (fun msg => msg_chatId msg = key)
                                             messages)))).
Proof.
  assert (forall conv p,
     conv ∈ (groupMessages messages).*2 -> p ∈ participants conv ->
     exists m, m ∈ messages /\ msg_chatId m = chatId conv
               /\ msg_isFromMe m = false /\ msg_sender m = p) as Hgroups.
  { intros conv p Hconv Hp.
    destruct (groupMessages_entries _ _ Hconv) as (_ & _ & _ & [_ Hiff] & _).
    apply Hiff in Hp as (m & Hm & Hfrom & Hs).
    apply elem_of_recordsOf in Hm as [Hchat Hm]. by exists m. }
  assert (forall key p,
        p ∈ d_participants (collectDetails (recordsOf key messages)) ->
        exists m, m ∈ messages /\ msg_chatId m = key
                  /\ msg_isFromMe m = false /\ msg_sender m = p) as Hdetails.
  { intros key p Hp.
    destruct (collectDetails_invariant (recordsOf key messages)) as (_ & [_ Hiff] & _).
    apply Hiff in Hp as (m & Hm & Hfrom & Hs).
    apply elem_of_recordsOf in Hm as [Hchat Hm]. by exists m. }
  split_and!; [exact Hgroups | exact Hdetails |].
  intros me Hme. split.
  - intros conv Hconv Hin.
    destruct (Hgroups _ _ Hconv Hin) as (m & Hm & _ & Hfrom & Hs).
    specialize (Hme m Hm Hs). congruence.
  - intros key Hin.
    destruct (Hdetails _ _ Hin) as (m & Hm & _ & Hfrom & Hs).
    specialize (Hme m Hm Hs). congruence.
Qed.

Lemma participants_are_senders_of_others_example :
  (forall m, m ∈ threeMessages -> msg_sender m = "me@example.com" ->
             msg_isFromMe m = true)
  /\ "me@example.com"
       ∉ d_participants (collectDetails (filter (fun msg => msg_chatId msg = "chat-a")
                                                threeMessages)).
Proof.
  assert (forall m, m ∈ threeMessages -> msg_sender m = "me@example.com" ->
                    msg_isFromMe m = true) as Hme.
  { intros m Hm Hs. unfold threeMessages in Hm.
    apply elem_of_cons in Hm as [->|Hm]; [discriminate Hs |].
    apply elem_of_cons in Hm as [->|Hm]; [discriminate Hs |].
    apply list_elem_of_singleton in Hm as ->. reflexivity. }
  split; [exact Hme |].
  apply (participants_are_senders_of_others threeMessages). exact Hme.
Defined.

Lemma firstLatest_first_with_date records date body pre r post :
  FirstLatest records date body ->
  records = (pre ++ r :: post)%list ->
  msg_date r = date ->
  Forall (fun y => msg_date y < msg_date r) pre ->
  body = textOf r.
Proof.
  intros (pre' & m & post' & -> & Hpre' & Hpost' & -> & ->) Heq Hdate Hpre.
  apply app_eq_app in Heq as [l [[Hl Hr]|[Hl Hr]]].
  - destruct l as [|z l]; simpl in Hr.
    + by injection Hr as ->.
    + injection Hr as -> _. rewrite Hl in Hpre'.
      apply Forall_app in Hpre' as [_ Hpre']. apply Forall_cons in Hpre' as [Hlt _]. lia.
  - destruct l as [|z l]; simpl in Hr.
    + by injection Hr as ->.
    + injection Hr as <- _. rewrite Hl in Hpre.
      apply Forall_app in Hpre as [_ Hpre]. apply Forall_cons in Hpre as [Hlt _]. lia.
Qed.

(** C4. In both loops the last-message text and timestamp change only at a
    record whose timestamp is strictly greater than the one kept so far.
    Consequently, for every message sequence, the text and timestamp of a
    conversation are those of the first record, in snapshot order, that
    carries the conversation's greatest timestamp: among records with equal
    timestamps the first-seen one wins. *)
Theorem last_message_is_first_latest_record (messages : list Message) :
  (forall conv msg,
     (lastDate (updateEntry conv msg), lastMessage (updateEntry conv msg))
     = if msg_date msg >? lastDate conv then (msg_date msg, textOf msg)
       else (lastDate conv, lastMessage conv))
  /\ (forall d date msg,
        d_lastDate d = Some date ->
        (d_lastDate (detailStep d msg), d_lastMessage (detailStep d msg))
        = if msg_date msg >? date then (Some (msg_date msg), textOf msg)
          else (Some date, d_lastMessage d))
  /\ (forall conv,
        conv ∈ (groupMessages messages).*2 ->
        let records := filter (fun msg => msg_chatId msg = chatId conv) messages in
        FirstLatest records (lastDate conv) (lastMessage conv)
        /\ forall pre r post,
             records = (pre ++ r :: post)%list ->
             msg_date r = lastDate conv ->
             Forall (fun y => msg_date y < msg_date r) pre ->
             lastMessage conv = textOf r)
  /\ (forall key,
        let records := filter (fun msg => msg_chatId msg = key) messages in
        let d := collectDetails records in
        records <> [] ->
        exists date,
          d_lastDate d = Some date
          /\ FirstLatest records date (d_lastMessage d)
          /\ forall pre r post,
               records = (pre ++ r :: post)%list ->
               msg_date r = date ->
               Forall (fun y => msg_date y < msg_date r) pre ->
               d_lastMessage d = textOf r).
Proof.
  split_and!.
  - intros conv msg. unfold updateEntry.
    by destruct (msg_date msg >? lastDate conv), (msg_isFromMe msg).
  - intros d date msg Hdate. unfold detailStep. cbn. rewrite Hdate.
    by destruct (msg_date msg >? date).
  - intros conv Hconv records.
    destruct (groupMessages_entries _ _ Hconv) as (_ & _ & _ & _ & Hlatest).
    split; [exact Hlatest |]. intros pre r post. by apply firstLatest_first_with_date.
  - intros key records d Hne.
    destruct (collectDetails_invariant records) as (_ & _ & Hlatest).
    fold d in Hlatest. destruct (d_lastDate d) as [date|]; [| done].
    exists date. split_and!; [done | done |].
    intros pre r post. by apply firstLatest_first_with_date.
Qed.

Lemma last_message_is_first_latest_record_example :
  exists conv,
    mapGet "chat-a" (groupMessages tiedMessages) = Some conv
    /\ lastDate conv = 500
    /\ lastMessage conv = "first of the tie".
Proof.
  eexists. split; [reflexivity |]. split; [reflexivity |].
  destruct (last_message_is_first_latest_record tiedMessages) as (_ & _ & H & _).
  refine (proj2 (H _ _)
            [mkMessage "chat-a" "+15550001" "early" 100 false false]
            (mkMessage "chat-a" "+15550001" "first of the tie" 500 false false)
            [mkMessage "chat-a" "+15550001" "second of the tie" 500 false false]
            _ _ _).
  - vm_compute. by left.
  - reflexivity.
  - reflexivity.
  - repeat constructor.
Defined.

(** ** What the client methods return once the SDK has answered *)



Lemma getConversationDetails_resolved rt sdk key result :
  key <> "" ->
  getMessages sdk PhotonClient.detailsFilter = Return result ->
  let chatMessages := filter (fun msg => msg_chatId msg = key) (messagesOf result) in
  PhotonClient.getConversationDetails rt sdk key =
    Return (if bool_decide (chatMessages = [])
            then "No messages found for chat ID: " ++ key
            else PhotonClient.formatDetails rt key (length chatMessages)
                   (collectDetails chatMessages)).
Proof.
  intros Hkey Hresult chatMessages. unfold PhotonClient.getConversationDetails.
  apply String.eqb_neq in Hkey. rewrite Hkey. cbn. rewrite Hresult. cbn.
  fold chatMessages. by case_bool_decide.
Qed.


Lemma groupMessages_keys messages key :
  key ∈ (groupMessages messages).*1 <-> key ∈ msg_chatId <$> messages.
Proof.
  destruct (groupMessages_invariant messages) as [Hnd Hinv]. split.
  - intros Hin. apply list_elem_of_fmap in Hin as ([k conv] & -> & Hin).
    apply (elem_of_mapGet _ _ _ Hnd) in Hin. specialize (Hinv k).
    rewrite Hin in Hinv. destruct Hinv as (_ & _ & _ & Hlatest).
    apply firstLatest_nonempty in Hlatest.
    destruct (recordsOf k messages) as [|m recs] eqn:Hrecs; [done |].
    assert (m ∈ recordsOf k messages) as Hm by (rewrite Hrecs; by left).
    apply elem_of_recordsOf in Hm as [<- Hm]. apply list_elem_of_fmap. by exists m.
  - intros Hin. apply list_elem_of_fmap in Hin as (m & -> & Hm).
    destruct (groupMessages_covers _ _ Hm) as (conv & Hget & _).
    apply mapGet_elem_of in Hget. apply list_elem_of_fmap. by exists (msg_chatId m, conv).
Qed.






Lemma conversationsLimit_offset props1 props2 :
  delete "offset" props1 = delete "offset" props2 ->
  PhotonClient.conversationsLimit (JObject props1)
  = PhotonClient.conversationsLimit (JObject props2).
Proof.
  intros Heq. unfold PhotonClient.conversationsLimit, getProperty.
  assert (props1 !! "limit" = props2 !! "limit") as ->; [| done].
  rewrite <- (lookup_delete_ne props1 "offset" "limit") by done.
  rewrite <- (lookup_delete_ne props2 "offset" "limit") by done.
  by rewrite Heq.
Qed.

(** C10. Two argument objects of get-conversations that differ only in the
    value (or presence) of [offset] give, over the same SDK, the same
    outcome of [getConversations] and of its handler: [offset] is never
    read. *)
Theorem offset_is_never_read (rt : Runtime) (sdk : IMessageSDK)
    (props1 props2 : gmap string JsValue) :
  delete "offset" props1 = delete "offset" props2 ->
  PhotonClient.getConversations rt sdk (JObject props1)
  = PhotonClient.getConversations rt sdk (JObject props2)
  /\ handleGetConversationsTool (newPhotonClient rt sdk) (JObject props1)
     = handleGetConversationsTool (newPhotonClient rt sdk) (JObject props2).
Proof.
  intros Heq. apply conversationsLimit_offset in Heq.
  assert (PhotonClient.getConversations rt sdk (JObject props1)
          = PhotonClient.getConversations rt sdk (JObject props2)) as Hsame.
  { unfold PhotonClient.getConversations, PhotonClient.conversationsFilter.
    by rewrite Heq. }
  split; [exact Hsame |].
  unfold handleGetConversationsTool. cbn. by rewrite Hsame.
Qed.

Lemma offset_is_never_read_example :
  let props1 : gmap string JsValue :=
    {[ "limit" := JNumber (Fin 1); "offset" := JNumber (Fin 0) ]} in
  let props2 : gmap string JsValue :=
    {[ "limit" := JNumber (Fin 1); "offset" := JNumber (Fin 1) ]} in
  delete "offset" props1 = delete "offset" props2
  /\ PhotonClient.getConversations sampleRuntime (snapshotSDK threeMessages)
       (JObject props1)
     = PhotonClient.getConversations sampleRuntime (snapshotSDK threeMessages)
         (JObject props2).
Proof.
  intros props1 props2.
  assert (delete "offset" props1 = delete "offset" props2) as Heq
    by (vm_compute; reflexivity).
  split; [exact Heq |].
  exact (proj1 (offset_is_never_read sampleRuntime (snapshotSDK threeMessages)
                  props1 props2 Heq)).
Defined.

(** ** Properties of the handlers and of the dispatcher *)

Lemma hasProperty_lookup key props :
  hasProperty key (JObject props) = bool_decide (props !! key <> None).
Proof.
  unfold hasProperty. apply bool_decide_ext. split.
  - intros [v Hv]. congruence.
  - intros Hne. destruct (props !! key); [eauto | done].
Qed.

(** Every handler returns: a text result, or the error envelope of what was
    thrown. *)
Lemma handlers_always_return client args :
  forall handler,
    handler ∈ [ handleSendMessageTool; handleReadMessagesTool;
                handleGetConversationsTool; handleGetConversationDetailsTool ] ->
    exists r, handler client args = Return r
              /\ ((exists result, r = textResult result)
                  \/ (exists error, r = errorResult error)).
Proof.
  assert (forall body : Completion CallToolResult,
            (forall r, body = Return r -> exists result, r = textResult result) ->
            exists r, tryCatch body (fun error => Return (errorResult error)) = Return r
                      /\ ((exists result, r = textResult result)
                          \/ (exists error, r = errorResult error))) as Hcatch.
  { intros [r|e] Hbody; simpl; eexists; split; eauto. }
  assert (forall (c : Completion string) r,
            (result ← c; Return (textResult result)) = Return r ->
            exists result, r = textResult result) as Hcall.
  { intros [s|e] r; cbn; [intros [= <-]; eauto | discriminate]. }
  intros handler Hin.
  repeat (apply elem_of_cons in Hin as [->|Hin]); [.. | inversion Hin].
  - apply Hcatch. intros r.
    destruct (truthy args); [| discriminate]. cbn.
    destruct (isSendMessageArgs args); [| discriminate]. cbn. apply Hcall.
  - apply Hcatch. intros r.
    destruct (truthy args); [| discriminate]. cbn.
    destruct (isReadMessagesArgs args); [| discriminate]. cbn. apply Hcall.
  - apply Hcatch. intros r.
    destruct (truthy args); [| discriminate]. cbn.
    destruct (isGetConversationsArgs args); [| discriminate]. cbn. apply Hcall.
  - apply Hcatch. intros r.
    destruct (negb (truthy args) || negb (typeIs args TObject)
              || negb (hasProperty "chatId" args)); [discriminate |]. cbn.
    destruct (getProperty "chatId" args); try discriminate. apply Hcall.
Qed.

(** C1. When a handler has accepted its arguments and the client method it
    calls throws, whatever the thrown value, the handler returns normally
    the envelope flagged [isError] whose text is ['Error: '] followed by the
    message of the error (or the string form of a thrown non-error value);
    and for every client and argument value each handler returns a result,
    so that no exception reaches the transport. *)
Theorem handlers_convert_exceptions (client : Client) (args : JsValue) (error : Thrown) :
  (truthy args = true -> isSendMessageArgs args = true ->
   client_sendMessage client args = Throw error ->
   handleSendMessageTool client args = Return (errorResult error))
  /\ (truthy args = true -> isReadMessagesArgs args = true ->
      client_readMessages client args = Throw error ->
      handleReadMessagesTool client args = Return (errorResult error))
  /\ (truthy args = true -> isGetConversationsArgs args = true ->
      client_getConversations client args = Throw error ->
      handleGetConversationsTool client args = Return (errorResult error))
  /\ (forall chatId,
        truthy args = true -> typeIs args TObject = true ->
        hasProperty "chatId" args = true ->
        getProperty "chatId" args = JString chatId ->
        client_getConversationDetails client chatId = Throw error ->
        handleGetConversationDetailsTool client args = Return (errorResult error))
  /\ (content (errorResult error) = [ {| text := "Error: " ++ errorText error |} ]
      /\ isError (errorResult error) = true)
  /\ (forall handler,
        handler ∈ [ handleSendMessageTool; handleReadMessagesTool;
                    handleGetConversationsTool; handleGetConversationDetailsTool ] ->
        exists r, handler client args = Return r
                  /\ (isError r = true ->
                      exists cause, content r = [ {| text := "Error: " ++ cause |} ])).
Proof.
  split_and!.
  - intros Ht Hg Hc. unfold handleSendMessageTool. rewrite Ht, Hg. cbn. by rewrite Hc.
  - intros Ht Hg Hc. unfold handleReadMessagesTool. rewrite Ht, Hg. cbn. by rewrite Hc.
  - intros Ht Hg Hc. unfold handleGetConversationsTool. rewrite Ht, Hg. cbn.
    by rewrite Hc.
  - intros chatId Ht Ho Hp Hg Hc. unfold handleGetConversationDetailsTool.
    rewrite Ht, Ho, Hp, Hg. cbn. by rewrite Hc.
  - done.
  - done.
  - intros handler Hin.
    destruct (handlers_always_return client args handler Hin) as (r & Hr & Hshape).
    exists r. split; [done |]. intros Herr.
    destruct Hshape as [[result ->]|[e ->]]; [discriminate | by eexists].
Qed.

Lemma handlers_convert_exceptions_example :
  handleGetConversationsTool (throwingClient (ThrownValue (JNumber (Fin 42))))
                             (JObject ∅)
  = Return {| content := [ {| text := "Error: 42" |} ]; isError := true |}
  /\ handleSendMessageTool
       (throwingClient (ErrorObj "Failed to send message: database is locked"))
       (JObject {[ "recipient" := JString "+15551234567"; "text" := JString "hi" ]})
     = Return {| content :=
                   [ {| text := "Error: Failed to send message: database is locked" |} ];
                 isError := true |}.
Proof.
  split.
  - apply (handlers_convert_exceptions
             (throwingClient (ThrownValue (JNumber (Fin 42)))) (JObject ∅)
             (ThrownValue (JNumber (Fin 42)))); reflexivity.
  - apply (handlers_convert_exceptions
             (throwingClient (ErrorObj "Failed to send message: database is locked"))
             (JObject {[ "recipient" := JString "+15551234567"; "text" := JString "hi" ]})
             (ErrorObj "Failed to send message: database is locked")); reflexivity.
Defined.

Lemma not_a_tool_name name :
  name ∉ toolNames ->
  String.eqb name "photon_send_message" = false
  /\ String.eqb name "photon_read_messages" = false
  /\ String.eqb name "photon_get_conversations" = false
  /\ String.eqb name "photon_get_conversation_details" = false.
Proof.
  intros Hnot. unfold toolNames in Hnot.
  split_and!; apply String.eqb_neq; intros ->; apply Hnot;
    repeat first [by left | right].
Qed.

Lemma send_arguments_guard args :
  SendArgumentsValid args <-> truthy args = true /\ isSendMessageArgs args = true.
Proof.
  split.
  - intros (props & recipient & body & -> & Hr & Ht).
    unfold isSendMessageArgs. rewrite !hasProperty_lookup. unfold getProperty.
    by rewrite Hr, Ht.
  - intros [_ Hguard]. unfold isSendMessageArgs in Hguard.
    destruct args as [| | | | |items|props]; try discriminate Hguard.
    rewrite !hasProperty_lookup in Hguard. unfold getProperty in Hguard.
    destruct (props !! "recipient") as [r|] eqn:Hr; [| discriminate Hguard].
    destruct (props !! "text") as [t|] eqn:Ht;
      [| rewrite andb_false_r in Hguard; discriminate Hguard].
    destruct r; try discriminate Hguard.
    destruct t; try (rewrite andb_false_r in Hguard; discriminate Hguard).
    by eexists _, _, _.
Qed.

Lemma object_argument_guard args :
  ObjectArgument args
  <-> truthy args = true /\ typeIs args TObject && negb (isNull args) = true.
Proof.
  unfold ObjectArgument, typeIs. split.
  - intros [Hobj Hnull]. destruct args; try done.
  - intros [_ Hguard]. destruct args; try done.
Qed.

Lemma details_arguments_guard args key :
  DetailsArgumentsValid args key
  <-> (negb (truthy args) || negb (typeIs args TObject)
       || negb (hasProperty "chatId" args) = false
       /\ getProperty "chatId" args = JString key).
Proof.
  split.
  - intros (props & -> & Hkey). rewrite hasProperty_lookup. unfold getProperty.
    rewrite Hkey. by rewrite bool_decide_true.
  - intros [Hguard Hkey].
    destruct args as [| | | | |items|props]; try discriminate Hkey.
    exists props. split; [done |]. unfold getProperty in Hkey.
    destruct (props !! "chatId") as [v|]; [by rewrite <- Hkey | discriminate Hkey].
Qed.

(** What each handler answers, by validity of its arguments. *)
Lemma handlers_report client args :
  ((~ SendArgumentsValid args ->
    exists cause,
      handleSendMessageTool client args = Return (errorResult (ErrorObj cause)))
   /\ (SendArgumentsValid args ->
       handleSendMessageTool client args
       = Return (reported (client_sendMessage client args))))
  /\ ((~ ObjectArgument args ->
       exists cause,
         handleReadMessagesTool client args = Return (errorResult (ErrorObj cause)))
      /\ (ObjectArgument args ->
          handleReadMessagesTool client args
          = Return (reported (client_readMessages client args))))
  /\ ((~ ObjectArgument args ->
       exists cause,
         handleGetConversationsTool client args
         = Return (errorResult (ErrorObj cause)))
      /\ (ObjectArgument args ->
          handleGetConversationsTool client args
          = Return (reported (client_getConversations client args))))
  /\ ((~ (exists key, DetailsArgumentsValid args key) ->
       exists cause,
         handleGetConversationDetailsTool client args
         = Return (errorResult (ErrorObj cause)))
      /\ (forall key,
            DetailsArgumentsValid args key ->
            handleGetConversationDetailsTool client args
            = Return (reported (client_getConversationDetails client key)))).
Proof.
  assert (forall c : Completion string,
            tryCatch (result ← c; Return (textResult result))
                     (fun error => Return (errorResult error))
            = Return (reported c)) as Hcall.
  { by intros [s|e]. }
  repeat split.
  - intros Hinvalid. unfold handleSendMessageTool.
    destruct (truthy args) eqn:Ht; [| cbn; eauto].
    destruct (isSendMessageArgs args) eqn:Hg; [| cbn; eauto].
    destruct Hinvalid. by apply send_arguments_guard.
  - intros [Ht Hg]%send_arguments_guard. unfold handleSendMessageTool.
    rewrite Ht, Hg. apply Hcall.
  - intros Hinvalid. unfold handleReadMessagesTool, isReadMessagesArgs.
    destruct (truthy args) eqn:Ht; [| cbn; eauto].
    destruct (typeIs args TObject && negb (isNull args)) eqn:Hg; [| cbn; eauto].
    destruct Hinvalid. by apply object_argument_guard.
  - intros [Ht Hg]%object_argument_guard.
    unfold handleReadMessagesTool, isReadMessagesArgs. rewrite Ht, Hg. apply Hcall.
  - intros Hinvalid. unfold handleGetConversationsTool, isGetConversationsArgs.
    destruct (truthy args) eqn:Ht; [| cbn; eauto].
    destruct (typeIs args TObject && negb (isNull args)) eqn:Hg; [| cbn; eauto].
    destruct Hinvalid. by apply object_argument_guard.
  - intros [Ht Hg]%object_argument_guard.
    unfold handleGetConversationsTool, isGetConversationsArgs.
    rewrite Ht, Hg. apply Hcall.
  - intros Hinvalid. unfold handleGetConversationDetailsTool.
    destruct (negb (truthy args) || negb (typeIs args TObject)
              || negb (hasProperty "chatId" args)) eqn:Hg; [cbn; eauto |].
    destruct (getProperty "chatId" args) as [| | | |key| |] eqn:Hkey;
      try (cbn; eauto; fail).
    destruct Hinvalid. exists key. by apply details_arguments_guard.
  - intros key [Hg Hkey]%details_arguments_guard.
    unfold handleGetConversationDetailsTool. rewrite Hg, Hkey. apply Hcall.
Qed.

(** C7. A name other than the four registered tool names makes the
    dispatcher (of either server) throw the method-not-found protocol error
    instead of returning an envelope. Each registered name is dispatched to
    its handler, whose outcome is always a returned envelope. Every
    validation failure (arguments that are absent or not valid for the
    tool) and every domain failure (the client call throws) is answered by
    an envelope flagged as error that carries the cause; only a client call
    that returns gives an envelope that is not flagged. *)
Theorem unknown_tool_is_protocol_fault (client : Client) (name : string) (args : JsValue) :
  (name ∉ toolNames ->
   callTool client name args
   = Fault {| code := MethodNotFound; message := "Unknown tool: " ++ name |}
   /\ standaloneCallTool client name args
      = Fault {| code := MethodNotFound; message := "Unknown tool: " ++ name |})
  /\ (forall dispatcher,
        dispatcher ∈ [ callTool; standaloneCallTool ] ->
        dispatcher client "photon_send_message" args
        = Handled (handleSendMessageTool client args)
        /\ dispatcher client "photon_read_messages" args
           = Handled (handleReadMessagesTool client args)
        /\ dispatcher client "photon_get_conversations" args
           = Handled (handleGetConversationsTool client args)
        /\ dispatcher client "photon_get_conversation_details" args
           = Handled (handleGetConversationDetailsTool client args))
  /\ (name ∈ toolNames ->
      exists r,
        callTool client name args = Handled (Return r)
        /\ standaloneCallTool client name args = Handled (Return r)
        /\ ((exists result, r = textResult result /\ isError r = false)
            \/ (exists error, r = errorResult error /\ isError r = true))
        /\ (truthy args = false ->
            exists cause, r = errorResult (ErrorObj cause)))
  /\ (forall dispatcher,
        dispatcher ∈ [ callTool; standaloneCallTool ] ->
        ((~ SendArgumentsValid args ->
          exists cause,
            dispatcher client "photon_send_message" args
            = Handled (Return {| content := [ {| text := "Error: " ++ cause |} ];
                                 isError := true |}))
         /\ (SendArgumentsValid args ->
             dispatcher client "photon_send_message" args
             = Handled (Return (reported (client_sendMessage client args)))))
        /\ ((~ ObjectArgument args ->
             exists cause,
               dispatcher client "photon_read_messages" args
               = Handled (Return {| content := [ {| text := "Error: " ++ cause |} ];
                                    isError := true |}))
            /\ (ObjectArgument args ->
                dispatcher client "photon_read_messages" args
                = Handled (Return (reported (client_readMessages client args)))))
        /\ ((~ ObjectArgument args ->
             exists cause,
               dispatcher client "photon_get_conversations" args
               = Handled (Return {| content := [ {| text := "Error: " ++ cause |} ];
                                    isError := true |}))
            /\ (ObjectArgument args ->
                dispatcher client "photon_get_conversations" args
                = Handled (Return (reported (client_getConversations client args)))))
        /\ ((~ (exists key, DetailsArgumentsValid args key) ->
             exists cause,
               dispatcher client "photon_get_conversation_details" args
               = Handled (Return {| content := [ {| text := "Error: " ++ cause |} ];
                                    isError := true |}))
            /\ (forall key,
                  DetailsArgumentsValid args key ->
                  dispatcher client "photon_get_conversation_details" args
                  = Handled (Return (reported
                                       (client_getConversationDetails client key)))))).
Proof.
  split; [| split; [| split]].
  - intros Hnot. apply not_a_tool_name in Hnot as (H1 & H2 & H3 & H4).
    unfold callTool, standaloneCallTool. by rewrite H1, H2, H3, H4.
  - intros dispatcher Hin.
    repeat (apply elem_of_cons in Hin as [->|Hin]); [done | done | inversion Hin].
  - intros Hin.
    assert (exists handler,
              handler ∈ [ handleSendMessageTool; handleReadMessagesTool;
                          handleGetConversationsTool; handleGetConversationDetailsTool ]
              /\ callTool client name args = Handled (handler client args)
              /\ standaloneCallTool client name args = Handled (handler client args)
              /\ (truthy args = false ->
                  exists cause, handler client args
                                = Return (errorResult (ErrorObj cause))))
      as (handler & Hhandler & -> & -> & Hfalsy).
    { unfold toolNames in Hin.
      repeat (apply elem_of_cons in Hin as [->|Hin]); [.. | inversion Hin].
      - exists handleSendMessageTool. split_and!; [by left | done | done |].
        intros Hf. unfold handleSendMessageTool. rewrite Hf. cbn. eauto.
      - exists handleReadMessagesTool.
        split_and!; [by right; left | done | done |].
        intros Hf. unfold handleReadMessagesTool. rewrite Hf. cbn. eauto.
      - exists handleGetConversationsTool.
        split_and!; [by right; right; left | done | done |].
        intros Hf. unfold handleGetConversationsTool. rewrite Hf. cbn. eauto.
      - exists handleGetConversationDetailsTool.
        split_and!; [by right; right; right; left | done | done |].
        intros Hf. unfold handleGetConversationDetailsTool. rewrite Hf. cbn. eauto. }
    destruct (handlers_always_return client args handler Hhandler) as (r & Hr & Hshape).
    exists r. rewrite Hr. split_and!; [done | done | |].
    + destruct Hshape as [[result ->]|[e ->]]; [left | right]; eauto.
    + intros Hf. destruct (Hfalsy Hf) as [cause Hcause].
      rewrite Hr in Hcause. injection Hcause as ->. eauto.
  - intros dispatcher Hin.
    destruct (handlers_report client args)
      as ([Hs1 Hs2] & [Hr1 Hr2] & [Hc1 Hc2] & [Hd1 Hd2]).
    assert (dispatcher client "photon_send_message" args
            = Handled (handleSendMessageTool client args)
            /\ dispatcher client "photon_read_messages" args
               = Handled (handleReadMessagesTool client args)
            /\ dispatcher client "photon_get_conversations" args
               = Handled (handleGetConversationsTool client args)
            /\ dispatcher client "photon_get_conversation_details" args
               = Handled (handleGetConversationDetailsTool client args))
      as (-> & -> & -> & ->).
    { repeat (apply elem_of_cons in Hin as [->|Hin]); [done | done | inversion Hin]. }
    repeat split.
    + intros H. destruct (Hs1 H) as [cause ->]. by exists cause.
    + intros H. by rewrite (Hs2 H).
    + intros H. destruct (Hr1 H) as [cause ->]. by exists cause.
    + intros H. by rewrite (Hr2 H).
    + intros H. destruct (Hc1 H) as [cause ->]. by exists cause.
    + intros H. by rewrite (Hc2 H).
    + intros H. destruct (Hd1 H) as [cause ->]. by exists cause.
    + intros key H. by rewrite (Hd2 key H).
Qed.

Lemma unknown_tool_is_protocol_fault_example :
  ("photon_delete_message" ∉ toolNames)
  /\ callTool (newPhotonClient sampleRuntime (snapshotSDK [])) "photon_delete_message"
       (JObject ∅)
     = Fault {| code := MethodNotFound;
                message := "Unknown tool: photon_delete_message" |}
  /\ ~ SendArgumentsValid (JObject {[ "recipient" := JNumber (Fin 5) ]})
  /\ exists cause,
       callTool (newPhotonClient sampleRuntime (snapshotSDK [])) "photon_send_message"
         (JObject {[ "recipient" := JNumber (Fin 5) ]})
       = Handled (Return {| content := [ {| text := "Error: " ++ cause |} ];
                            isError := true |}).
Proof.
  assert ("photon_delete_message" ∉ toolNames) as Hnot.
  { unfold toolNames. intros Hin.
    repeat (apply elem_of_cons in Hin as [Hin|Hin]; [discriminate Hin |]).
    inversion Hin. }
  assert (~ SendArgumentsValid (JObject {[ "recipient" := JNumber (Fin 5) ]}))
    as Hinvalid.
  { intros (props & recipient & body & [= <-] & Hr & _). discriminate Hr. }
  split; [exact Hnot |]. split.
  - exact (proj1 (proj1 (unknown_tool_is_protocol_fault
                           (newPhotonClient sampleRuntime (snapshotSDK []))
                           "photon_delete_message" (JObject ∅)) Hnot)).
  - split; [exact Hinvalid |].
    destruct (unknown_tool_is_protocol_fault
                (newPhotonClient sampleRuntime (snapshotSDK []))
                "photon_send_message"
                (JObject {[ "recipient" := JNumber (Fin 5) ]}))
      as (_ & _ & _ & Hreport).
    destruct (Hreport callTool) as ([Hsend _] & _); [by left |].
    exact (Hsend Hinvalid).
Defined.

Lemma string_or_not (v : JsValue) : (exists s, v = JString s) \/ (forall s, v <> JString s).
Proof. destruct v; eauto. Qed.

(** The outcome of the send-message handler on an argument object, by
    cases on its [recipient] and [text] properties. *)
Lemma sendMessage_invalid_shape client props :
  (forall recipient body,
     ~ (props !! "recipient" = Some (JString recipient)
        /\ props !! "text" = Some (JString body))) ->
  handleSendMessageTool client (JObject props)
  = Return (errorResult
              (ErrorObj "Invalid arguments for photon_send_message. Required: recipient, text")).
Proof.
  intros Hshape. unfold handleSendMessageTool, isSendMessageArgs.
  rewrite !hasProperty_lookup. unfold getProperty.
  destruct (props !! "recipient") as [r|] eqn:Hr; [| done].
  destruct (props !! "text") as [t|] eqn:Ht;
    [| rewrite andb_false_r; done].
  destruct r; try done. destruct t; try (by rewrite ?andb_false_r).
  exfalso. eapply Hshape. eauto.
Qed.

Lemma sendMessage_valid_shape rt sdk props recipient body :
  props !! "recipient" = Some (JString recipient) ->
  props !! "text" = Some (JString body) ->
  handleSendMessageTool (newPhotonClient rt sdk) (JObject props)
  = if String.eqb recipient "" || String.eqb body ""
    then Return (errorResult
                   (ErrorObj "Failed to send message: Recipient and text are required"))
    else match asRecipient sdk (JString recipient) with
         | Throw _ =>
             Return (errorResult
                       (ErrorObj ("Failed to send message: "
                                  ++ errorText (PhotonClient.invalidRecipient
                                                  (JString recipient)))))
         | Return validatedRecipient =>
             match send sdk validatedRecipient (JString body) with
             | Throw error =>
                 Return (errorResult
                           (ErrorObj ("Failed to send message: " ++ errorText error)))
             | Return _ =>
                 Return (textResult ("Message sent successfully to " ++ recipient))
             end
         end.
Proof.
  intros Hr Ht. unfold handleSendMessageTool, isSendMessageArgs.
  rewrite !hasProperty_lookup. unfold getProperty. rewrite Hr, Ht. cbn.
  unfold PhotonClient.sendMessage, getProperty. rewrite Hr, Ht. cbn.
  destruct (String.eqb recipient ""), (String.eqb body ""); cbn; try done.
  destruct (asRecipient sdk (JString recipient)) as [v|e]; cbn; [| done].
  by destruct (send sdk v (JString body)) as [[]|e].
Qed.

(** C8. For every send-message argument object: unless both [recipient] and
    [text] are present, non-empty strings, the operation ends in an
    error-flagged result without the SDK being consulted; when they are, the
    request goes on to the SDK's recipient check and delivery. When [text]
    is missing the error text contains ['Required: recipient, text']. *)
Theorem send_requires_recipient_and_text (rt : Runtime) (sdk : IMessageSDK)
    (props : gmap string JsValue) :
  let client := newPhotonClient rt sdk in
  (~ sendArgsComplete props ->
   exists cause,
     forall rt' sdk',
       handleSendMessageTool (newPhotonClient rt' sdk') (JObject props)
       = Return {| content := [ {| text := "Error: " ++ cause |} ]; isError := true |})
  /\ (props !! "text" = None ->
      exists body,
        handleSendMessageTool client (JObject props)
        = Return {| content := [ {| text := body |} ]; isError := true |}
        /\ contains "Required: recipient, text" body)
  /\ (forall recipient body,
        props !! "recipient" = Some (JString recipient) ->
        props !! "text" = Some (JString body) ->
        recipient <> "" -> body <> "" ->
        handleSendMessageTool client (JObject props)
        = match asRecipient sdk (JString recipient) with
          | Throw _ =>
              Return (errorResult
                        (ErrorObj ("Failed to send message: Invalid recipient format: "
                                   ++ recipient
                                   ++ ". Expected phone number (e.g., +1234567890) or email address.")))
          | Return validatedRecipient =>
              match send sdk validatedRecipient (JString body) with
              | Throw error =>
                  Return (errorResult
                            (ErrorObj ("Failed to send message: " ++ errorText error)))
              | Return _ =>
                  Return (textResult ("Message sent successfully to " ++ recipient))
              end
          end).
Proof.
  intros client. split_and!.
  - intros Hincomplete.
    destruct (props !! "recipient") as [r|] eqn:Hr.
    2: { eexists. intros rt' sdk'. apply sendMessage_invalid_shape.
         intros recipient body [H _]. congruence. }
    destruct (props !! "text") as [t|] eqn:Ht.
    2: { eexists. intros rt' sdk'. apply sendMessage_invalid_shape.
         intros recipient body [_ H]. congruence. }
    destruct (string_or_not r) as [[recipient ->]|Hnr].
    2: { eexists. intros rt' sdk'. apply sendMessage_invalid_shape.
         intros recipient body [H _]. apply (Hnr recipient). congruence. }
    destruct (string_or_not t) as [[body ->]|Hnt].
    2: { eexists. intros rt' sdk'. apply sendMessage_invalid_shape.
         intros recipient' body [_ H]. apply (Hnt body). congruence. }
    eexists. intros rt' sdk'. rewrite (sendMessage_valid_shape _ _ _ _ _ Hr Ht).
    destruct (String.eqb recipient "" || String.eqb body "") eqn:Hempty; [done |].
    exfalso. apply Hincomplete. apply orb_false_elim in Hempty as [H1 H2].
    apply String.eqb_neq in H1, H2. by exists recipient, body.
  - intros Hmissing. eexists. split.
    + apply sendMessage_invalid_shape. intros recipient body [_ H]. congruence.
    + exists "Error: Invalid arguments for photon_send_message. ", "". reflexivity.
  - intros recipient body Hr Ht Hrne Htne. subst client.
    rewrite (sendMessage_valid_shape _ _ _ _ _ Hr Ht).
    apply String.eqb_neq in Hrne, Htne. by rewrite Hrne, Htne.
Qed.

Lemma send_requires_recipient_and_text_example :
  let props : gmap string JsValue := {[ "recipient" := JString "+15551234567" ]} in
  props !! "text" = None
  /\ exists body,
       handleSendMessageTool (newPhotonClient sampleRuntime (snapshotSDK []))
                             (JObject props)
       = Return {| content := [ {| text := body |} ]; isError := true |}
       /\ contains "Required: recipient, text" body.
Proof.
  intros props.
  assert (props !! "text" = None) as Hmissing by reflexivity.
  split; [exact Hmissing |].
  exact (proj1 (proj2 (send_requires_recipient_and_text sampleRuntime (snapshotSDK [])
                         props)) Hmissing).
Defined.

(** C5 as stated fails: an argument object whose [limit] is a string and
    whose [unreadOnly] is a string is not rejected; the query runs and the
    result is not flagged as an error. *)
Lemma read_accepts_mistyped_fields_counterexample :
  let args := JObject {[ "limit" := JString "abc"; "unreadOnly" := JString "no" ]} in
  typeof (getProperty "limit" args) <> TNumber
  /\ typeof (getProperty "unreadOnly" args) <> TBoolean
  /\ handleReadMessagesTool (newPhotonClient sampleRuntime (snapshotSDK [])) args
     = Return {| content := [ {| text := "No messages found" |} ]; isError := false |}
  /\ ~ exists cause,
         handleReadMessagesTool (newPhotonClient sampleRuntime (snapshotSDK [])) args
         = Return {| content := [ {| text := cause |} ]; isError := true |}.
Proof.
  intros args. split_and!; [discriminate | discriminate | reflexivity |].
  intros [cause Hcause]. vm_compute in Hcause. discriminate Hcause.
Qed.

(** C5, as the code has it. For the read-messages operation every field is
    optional and none is type-checked. The handler rejects an absent (falsy)
    argument value with ['No arguments provided'] and any other value that
    is not an object with ['Invalid arguments for photon_read_messages'],
    a text that names no field; every argument object is handed to the
    client as it is, and the client copies a truthy [limit] of any type into
    the query and reads [unreadOnly] by its truthiness. *)
Theorem read_arguments_are_not_type_checked (client : Client) (args : JsValue) :
  (truthy args = false ->
   handleReadMessagesTool client args
   = Return (errorResult (ErrorObj "No arguments provided")))
  /\ (truthy args = true -> typeof args <> TObject ->
      handleReadMessagesTool client args
      = Return (errorResult (ErrorObj "Invalid arguments for photon_read_messages")))
  /\ (forall props,
        handleReadMessagesTool client (JObject props)
        = match client_readMessages client (JObject props) with
          | Return result => Return (textResult result)
          | Throw error => Return (errorResult error)
          end)
  /\ (forall sdk props limit,
        props !! "recipient" = None ->
        props !! "limit" = Some limit ->
        truthy limit = true ->
        PhotonClient.readFilter sdk (JObject props)
        = Return {| excludeOwnMessages := false;
                    filter_sender := None;
                    filter_unreadOnly :=
                      truthy (default JUndefined (props !! "unreadOnly"));
                    filter_limit := Some limit |}).
Proof.
  split_and!.
  - intros Hf. unfold handleReadMessagesTool. by rewrite Hf.
  - intros Ht Hobj. unfold handleReadMessagesTool, isReadMessagesArgs, typeIs.
    rewrite Ht. by rewrite bool_decide_false.
  - intros props. unfold handleReadMessagesTool. cbn.
    by destruct (client_readMessages client (JObject props)).
  - intros sdk props limit Hr Hl Ht. unfold PhotonClient.readFilter, getProperty.
    rewrite Hr, Hl. destruct limit; cbn in *; try done; by rewrite Ht.
Qed.

Lemma read_arguments_are_not_type_checked_example :
  let props : gmap string JsValue := {[ "limit" := JString "abc" ]} in
  PhotonClient.readFilter (snapshotSDK []) (JObject props)
  = Return {| excludeOwnMessages := false;
              filter_sender := None;
              filter_unreadOnly := false;
              filter_limit := Some (JString "abc") |}.
Proof.
  intros props.
  destruct (read_arguments_are_not_type_checked
              (newPhotonClient sampleRuntime (snapshotSDK [])) (JObject props))
    as (_ & _ & _ & Hfilter).
  apply (Hfilter (snapshotSDK []) props (JString "abc")); reflexivity.
Defined.

(** The causes the client reports when the SDK fails: the SDK's error
    reaches the envelope behind the prefix of the method. *)
Lemma sdk_failure_reaches_envelope rt sdk props error :
  (forall filter, getMessages sdk filter = Throw error) ->
  handleGetConversationsTool (newPhotonClient rt sdk) (JObject props)
  = Return (errorResult
              (ErrorObj ("Failed to get conversations: " ++ errorText error)))
  /\ (props !! "recipient" = None ->
      handleReadMessagesTool (newPhotonClient rt sdk) (JObject props)
      = Return (errorResult
                  (ErrorObj ("Failed to read messages: " ++ errorText error))))
  /\ (forall key,
        key <> "" -> props !! "chatId" = Some (JString key) ->
        handleGetConversationDetailsTool (newPhotonClient rt sdk) (JObject props)
        = Return (errorResult
                    (ErrorObj ("Failed to get conversation details: "
                               ++ errorText error)))).
Proof.
  intros Hfail. split_and!.
  - unfold handleGetConversationsTool. cbn.
    unfold PhotonClient.getConversations. by rewrite Hfail.
  - intros Hr. unfold handleReadMessagesTool. cbn.
    unfold PhotonClient.readMessages, PhotonClient.readFilter, getProperty.
    rewrite Hr. cbn. by rewrite Hfail.
  - intros key Hkey Hprop. unfold handleGetConversationDetailsTool.
    rewrite hasProperty_lookup. unfold getProperty. rewrite Hprop. cbn.
    unfold PhotonClient.getConversationDetails.
    apply String.eqb_neq in Hkey. rewrite Hkey. cbn. by rewrite Hfail.
Qed.

(** ** Further properties of the client wrapper *)




(** X2. The three retrieval methods do not depend on the shape in which the
    SDK delivers its result: over an SDK that wraps every answer in an
    object with a [messages] property they return what they return over the
    SDK that answers with the bare array. *)
Theorem result_shape_is_normalised (rt : Runtime) (sdk : IMessageSDK) :
  (forall args, PhotonClient.readMessages rt (wrappingSDK sdk) args
                = PhotonClient.readMessages rt sdk args)
  /\ (forall args, PhotonClient.getConversations rt (wrappingSDK sdk) args
                   = PhotonClient.getConversations rt sdk args)
  /\ (forall key, PhotonClient.getConversationDetails rt (wrappingSDK sdk) key
                  = PhotonClient.getConversationDetails rt sdk key).
Proof.
  split_and!.
  - intros args. unfold PhotonClient.readMessages.
    change (PhotonClient.readFilter (wrappingSDK sdk) args)
      with (PhotonClient.readFilter sdk args).
    destruct (PhotonClient.readFilter sdk args) as [filter|e]; [| done]. cbn.
    destruct (getMessages sdk filter) as [result|e]; [| done]. by cbn.
  - intros args. unfold PhotonClient.getConversations. cbn.
    destruct (getMessages sdk _) as [result|e]; [| done]. by cbn.
  - intros key. unfold PhotonClient.getConversationDetails.
    destruct (throwIf _ _) as [[]|e]; [| done]. cbn.
    destruct (getMessages sdk _) as [result|e]; [| done]. by cbn.
Qed.

Lemma lookup_other_than key other (props1 props2 : gmap string JsValue) :
  delete key props1 = delete key props2 -> other <> key ->
  props1 !! other = props2 !! other.
Proof.
  intros Heq Hne.
  rewrite <- (lookup_delete_ne props1 key other) by done.
  rewrite <- (lookup_delete_ne props2 key other) by done.
  by rewrite Heq.
Qed.

(** X3. The [chatId] argument that the send-message and read-messages tools
    advertise is never read: two argument objects that differ only in
    [chatId] give the same outcome of either handler. *)
Theorem chatId_is_ignored_by_send_and_read (rt : Runtime) (sdk : IMessageSDK)
    (props1 props2 : gmap string JsValue) :
  delete "chatId" props1 = delete "chatId" props2 ->
  handleSendMessageTool (newPhotonClient rt sdk) (JObject props1)
  = handleSendMessageTool (newPhotonClient rt sdk) (JObject props2)
  /\ handleReadMessagesTool (newPhotonClient rt sdk) (JObject props1)
     = handleReadMessagesTool (newPhotonClient rt sdk) (JObject props2).
Proof.
  intros Heq.
  pose proof (lookup_other_than "chatId" "recipient" _ _ Heq ltac:(done)) as Hr.
  pose proof (lookup_other_than "chatId" "text" _ _ Heq ltac:(done)) as Ht.
  pose proof (lookup_other_than "chatId" "limit" _ _ Heq ltac:(done)) as Hl.
  pose proof (lookup_other_than "chatId" "unreadOnly" _ _ Heq ltac:(done)) as Hu.
  split.
  - unfold handleSendMessageTool, isSendMessageArgs. rewrite !hasProperty_lookup.
    cbn. unfold PhotonClient.sendMessage, getProperty. by rewrite Hr, Ht.
  - unfold handleReadMessagesTool. cbn.
    unfold PhotonClient.readMessages, PhotonClient.readFilter, getProperty.
    by rewrite Hr, Hl, Hu.
Qed.

Lemma chatId_is_ignored_by_send_and_read_example :
  let props1 : gmap string JsValue := {[ "chatId" := JString "chat-a" ]} in
  let props2 : gmap string JsValue := {[ "chatId" := JString "chat-b" ]} in
  delete "chatId" props1 = delete "chatId" props2
  /\ handleReadMessagesTool (newPhotonClient sampleRuntime (snapshotSDK threeMessages))
       (JObject props1)
     = handleReadMessagesTool (newPhotonClient sampleRuntime (snapshotSDK threeMessages))
         (JObject props2).
Proof.
  intros props1 props2.
  assert (delete "chatId" props1 = delete "chatId" props2) as Heq
    by (vm_compute; reflexivity).
  split; [exact Heq |].
  exact (proj2 (chatId_is_ignored_by_send_and_read sampleRuntime
                  (snapshotSDK threeMessages) props1 props2 Heq)).
Defined.

(** X4. Every query that [readMessages] hands to the SDK includes own
    messages, carries a limit only if that limit is truthy (a limit of 0 is
    dropped, an absent one becomes 50) and filters by sender only with a
    recipient that the SDK's parser returned for a truthy [recipient]
    argument. *)
Theorem read_query_invariants (sdk : IMessageSDK) (args : JsValue) (filter : MessageFilter) :
  PhotonClient.readFilter sdk args = Return filter ->
  excludeOwnMessages filter = false
  /\ filter_unreadOnly filter = truthy (getProperty "unreadOnly" args)
  /\ (forall limit, filter_limit filter = Some limit -> truthy limit = true)
  /\ (getProperty "limit" args = JUndefined ->
      filter_limit filter = Some (JNumber (Fin 50)))
  /\ (getProperty "limit" args = JNumber (Fin 0) -> filter_limit filter = None)
  /\ (forall validated,
        filter_sender filter = Some validated ->
        truthy (getProperty "recipient" args) = true
        /\ asRecipient sdk (getProperty "recipient" args) = Return validated)
  /\ (truthy (getProperty "recipient" args) = false -> filter_sender filter = None).
Proof.
  unfold PhotonClient.readFilter. intros Hfilter.
  set (limit := match getProperty "limit" args with
                | JUndefined => JNumber (Fin 50)
                | v => v
                end) in *.
  assert (exists sender,
            filter = {| excludeOwnMessages := false; filter_sender := sender;
                        filter_unreadOnly := truthy (getProperty "unreadOnly" args);
                        filter_limit := if truthy limit then Some limit else None |}
            /\ (forall validated, sender = Some validated ->
                  truthy (getProperty "recipient" args) = true
                  /\ asRecipient sdk (getProperty "recipient" args) = Return validated)
            /\ (truthy (getProperty "recipient" args) = false -> sender = None))
    as (sender & -> & Hsender & Hnone).
  { destruct (truthy (getProperty "recipient" args)) eqn:Hr.
    - destruct (asRecipient sdk (getProperty "recipient" args)) as [v|e] eqn:Hv;
        cbn in Hfilter; [| discriminate].
      injection Hfilter as <-. exists (Some v). split_and!; [done | | done].
      by intros validated [= <-].
    - cbn in Hfilter. injection Hfilter as <-. exists None.
      split_and!; [done | | done]. intros validated H. discriminate H. }
  cbn. split_and!; try done.
  - intros l. destruct (truthy limit) eqn:Ht; [| discriminate]. by intros [= <-].
  - intros Hl. subst limit. by rewrite Hl.
  - intros Hl. subst limit. by rewrite Hl.
Qed.

Lemma read_query_invariants_example :
  let args := JObject {[ "limit" := JNumber (Fin 0) ]} in
  exists filter,
    PhotonClient.readFilter (snapshotSDK []) args = Return filter
    /\ filter_limit filter = None.
Proof.
  intros args. eexists. split; [reflexivity |].
  refine (proj1 (proj2 (proj2 (proj2 (proj2
            (read_query_invariants (snapshotSDK []) args _ eq_refl))))) _).
  reflexivity.
Defined.



(** ** Further properties of the aggregation *)

Lemma collectDetails_group_flag records :
  d_isGroupChat (collectDetails records) = true
  <-> exists m, m ∈ records /\ msg_isGroupChat m = true.
Proof.
  induction records as [|x records IH] using rev_ind.
  - split; [discriminate | intros (m & Hm & _); inversion Hm].
  - rewrite collectDetails_snoc. unfold detailStep. cbn.
    destruct (msg_isGroupChat x) eqn:Hx.
    + split; [| done]. intros _. exists x. split; [| done].
      apply elem_of_app. right. by left.
    + rewrite IH. split.
      * intros (m & Hm & Hg). exists m. split; [| done]. apply elem_of_app. by left.
      * intros (m & Hm & Hg). apply elem_of_app in Hm as [Hm|Hm]; [by exists m |].
        apply list_elem_of_singleton in Hm as ->. congruence.
Qed.

(** X6. When the chat has records in the snapshot, the detail view is
    formatted from all of them: the total is their number, and the
    conversation is classified as a group chat exactly when at least one of
    its records carries the group flag. *)
Theorem details_classify_group_chats (rt : Runtime) (sdk : IMessageSDK)
    (key : string) (result : MessageQueryResult) :
  let records := filter (fun msg => msg_chatId msg = key) (messagesOf result) in
  key <> "" ->
  getMessages sdk PhotonClient.detailsFilter = Return result ->
  records <> [] ->
  exists d,
    PhotonClient.getConversationDetails rt sdk key
    = Return (PhotonClient.formatDetails rt key (length records) d)
    /\ (d_isGroupChat d = true <-> exists m, m ∈ records /\ msg_isGroupChat m = true)
    /\ (d_isGroupChat d = false <-> forall m, m ∈ records -> msg_isGroupChat m = false).
Proof.
  intros records Hkey Hresult Hne. exists (collectDetails records).
  pose proof (collectDetails_group_flag records) as Hflag. split_and!.
  - rewrite (getConversationDetails_resolved _ _ _ _ Hkey Hresult).
    fold records. by rewrite bool_decide_false.
  - exact Hflag.
  - split.
    + intros Hfalse m Hm. destruct (msg_isGroupChat m) eqn:Hg; [| done].
      assert (d_isGroupChat (collectDetails records) = true) by (apply Hflag; eauto).
      congruence.
    + intros Hall. destruct (d_isGroupChat (collectDetails records)) eqn:Hd; [| done].
      destruct (proj1 Hflag eq_refl) as (m & Hm & Hg). rewrite (Hall m Hm) in Hg.
      discriminate.
Qed.

Lemma details_classify_group_chats_example :
  exists d,
    PhotonClient.getConversationDetails sampleRuntime (snapshotSDK mixedMessages) "group-1"
    = Return (PhotonClient.formatDetails sampleRuntime "group-1" 2 d)
    /\ d_isGroupChat d = true.
Proof.
  destruct (details_classify_group_chats sampleRuntime (snapshotSDK mixedMessages)
              "group-1" (ResultArray mixedMessages))
    as (d & Hout & Hflag & _); [discriminate | reflexivity | discriminate |].
  exists d. split; [exact Hout |]. apply Hflag.
  eexists. split; [by left | reflexivity].
Defined.

Lemma firstLatest_attained records date body :
  FirstLatest records date body ->
  exists m, m ∈ records /\ msg_date m = date /\ textOf m = body.
Proof.
  intros (pre & m & post & -> & _ & _ & -> & ->). exists m. split; [| done].
  apply elem_of_app. right. by left.
Qed.

Lemma textOf_not_empty msg : textOf msg <> "".
Proof.
  unfold textOf, orElse. destruct (msg_text msg) as [s|]; [| done].
  destruct (String.eqb s "") eqn:Hs; [done |]. by apply String.eqb_neq.
Qed.

(** X7. In the conversation list and in the detail view, the last-message
    timestamp of a conversation is the greatest timestamp among the records
    of that conversation in the snapshot, and it is the timestamp of one of
    them. *)
Theorem last_date_is_greatest_timestamp (messages : list Message) :
  (forall conv,
     conv ∈ (groupMessages messages).*2 ->
     (forall m, m ∈ messages -> msg_chatId m = chatId conv ->
                msg_date m <= lastDate conv)
     /\ exists m, m ∈ messages /\ msg_chatId m = chatId conv
                  /\ msg_date m = lastDate conv)
  /\ (forall key date,
        d_lastDate (collectDetails (filter (fun msg => msg_chatId msg = key) messages))
        = Some date ->
        (forall m, m ∈ messages -> msg_chatId m = key -> msg_date m <= date)
        /\ exists m, m ∈ messages /\ msg_chatId m = key /\ msg_date m = date).
Proof.
  assert (forall key date body,
            FirstLatest (recordsOf key messages) date body ->
            (forall m, m ∈ messages -> msg_chatId m = key -> msg_date m <= date)
            /\ exists m, m ∈ messages /\ msg_chatId m = key /\ msg_date m = date)
    as Hmax.
  { intros key date body Hlatest. split.
    - intros m Hm Hchat. pose proof (firstLatest_greatest _ _ _ Hlatest) as Hall.
      rewrite Forall_forall in Hall. apply Hall. by apply elem_of_recordsOf.
    - destruct (firstLatest_attained _ _ _ Hlatest) as (m & Hm & Hdate & _).
      apply elem_of_recordsOf in Hm as [Hchat Hm]. by exists m. }
  split.
  - intros conv Hconv.
    destruct (groupMessages_entries _ _ Hconv) as (_ & _ & _ & _ & Hlatest).
    by apply (Hmax _ _ _ Hlatest).
  - intros key date Hdate.
    destruct (collectDetails_invariant (recordsOf key messages)) as (_ & _ & Hlatest).
    unfold recordsOf in Hlatest. rewrite Hdate in Hlatest.
    by apply (Hmax _ _ _ Hlatest).
Qed.

Lemma last_date_is_greatest_timestamp_example :
  d_lastDate (collectDetails (filter (fun msg => msg_chatId msg = "chat-a") threeMessages))
  = Some 200
  /\ exists m, m ∈ threeMessages /\ msg_chatId m = "chat-a" /\ msg_date m = 200.
Proof.
  split; [reflexivity |].
  destruct (last_date_is_greatest_timestamp threeMessages) as [_ Hdetails].
  exact (proj2 (Hdetails "chat-a" 200 eq_refl)).
Defined.

(** X8. The last-message text shown for a conversation is never the empty
    string: in the conversation list and in the detail view it is the text
    of a record of the conversation that carries the last-message
    timestamp, with ['(no text)'] in its place when that text is null or
    the empty string. Any other text, one of white space only included, is
    shown as it is. *)
Theorem last_message_is_never_empty (messages : list Message) :
  (forall conv,
     conv ∈ (groupMessages messages).*2 ->
     lastMessage conv <> ""
     /\ exists m, m ∈ messages /\ msg_chatId m = chatId conv
                  /\ msg_date m = lastDate conv
                  /\ lastMessage conv
                     = match msg_text m with
                       | Some body => if String.eqb body "" then "(no text)" else body
                       | None => "(no text)"
                       end)
  /\ (forall key,
        let records := filter (fun msg => msg_chatId msg = key) messages in
        records <> [] ->
        d_lastMessage (collectDetails records) <> ""
        /\ exists m, m ∈ messages /\ msg_chatId m = key
                     /\ d_lastDate (collectDetails records) = Some (msg_date m)
                     /\ d_lastMessage (collectDetails records)
                        = match msg_text m with
                          | Some body =>
                              if String.eqb body "" then "(no text)" else body
                          | None => "(no text)"
                          end).
Proof.
  split.
  - intros conv Hconv.
    destruct (groupMessages_entries _ _ Hconv) as (_ & _ & _ & _ & Hlatest).
    destruct (firstLatest_attained _ _ _ Hlatest) as (m & Hm & Hdate & Htext).
    apply elem_of_recordsOf in Hm as [Hchat Hm]. split.
    + rewrite <- Htext. apply textOf_not_empty.
    + exists m. by rewrite <- Htext.
  - intros key records Hne.
    destruct (collectDetails_invariant records) as (_ & _ & Hlatest).
    destruct (d_lastDate (collectDetails records)) as [date|]; [| done].
    destruct (firstLatest_attained _ _ _ Hlatest) as (m & Hm & Hdate & Htext).
    apply (elem_of_recordsOf m key messages) in Hm as [Hchat Hm]. split.
    + rewrite <- Htext. apply textOf_not_empty.
    + exists m. rewrite <- Htext, Hdate. by split_and!.
Qed.

Lemma last_message_is_never_empty_example :
  let records := filter (fun msg => msg_chatId msg = "group-1") mixedMessages in
  records <> []
  /\ d_lastMessage (collectDetails records) <> ""
  /\ exists m, m ∈ mixedMessages /\ msg_chatId m = "group-1"
               /\ d_lastDate (collectDetails records) = Some (msg_date m)
               /\ d_lastMessage (collectDetails records)
                  = match msg_text m with
                    | Some body => if String.eqb body "" then "(no text)" else body
                    | None => "(no text)"
                    end.
Proof.
  intros records.
  assert (records <> []) as Hne by discriminate.
  split; [exact Hne |].
  exact (proj2 (last_message_is_never_empty mixedMessages) "group-1" Hne).
Defined.

Lemma recordsOf_Permutation key messages messages' :
  messages ≡ₚ messages' -> recordsOf key messages ≡ₚ recordsOf key messages'.
Proof. intros Hperm. unfold recordsOf. by rewrite Hperm. Qed.

(** X9. The order in which the SDK delivers the records does not change
    which conversations are found, nor the last-message timestamp, the
    unread count or the members of the participant set of any of them. *)
Theorem summaries_do_not_depend_on_record_order (messages messages' : list Message)
    (key : string) (conv : ConversationEntry) :
  messages ≡ₚ messages' ->
  mapGet key (groupMessages messages) = Some conv ->
  exists conv',
    mapGet key (groupMessages messages') = Some conv'
    /\ lastDate conv' = lastDate conv
    /\ unreadCount conv' = unreadCount conv
    /\ forall p, p ∈ participants conv' <-> p ∈ participants conv.
Proof.
  intros Hperm Hget.
  pose proof (recordsOf_Permutation key _ _ Hperm) as Hrecs.
  destruct (groupMessages_invariant messages) as [_ Hinv].
  specialize (Hinv key). rewrite Hget in Hinv.
  destruct Hinv as (_ & Hunread & [_ Hsenders] & Hlatest).
  destruct (groupMessages_invariant messages') as [_ Hinv'].
  specialize (Hinv' key).
  destruct (mapGet key (groupMessages messages')) as [conv'|].
  - destruct Hinv' as (_ & Hunread' & [_ Hsenders'] & Hlatest').
    exists conv'. split_and!; [done | | |].
    + pose proof (firstLatest_greatest _ _ _ Hlatest) as Hmax.
      pose proof (firstLatest_greatest _ _ _ Hlatest') as Hmax'.
      destruct (firstLatest_attained _ _ _ Hlatest) as (m & Hm & Hdate & _).
      destruct (firstLatest_attained _ _ _ Hlatest') as (m' & Hm' & Hdate' & _).
      rewrite Forall_forall in Hmax, Hmax'.
      rewrite Hrecs in Hm. rewrite <- Hrecs in Hm'.
      specialize (Hmax _ Hm'). specialize (Hmax' _ Hm). lia.
    + rewrite Hunread, Hunread'. unfold unreadIn. by rewrite Hrecs.
    + intros p. rewrite Hsenders, Hsenders'.
      split; intros (m & Hm & Hrest); exists m; (split; [| done]).
      * by rewrite Hrecs.
      * by rewrite <- Hrecs.
  - apply firstLatest_nonempty in Hlatest. exfalso. apply Hlatest.
    apply Permutation_nil. by rewrite Hrecs, Hinv'.
Qed.

Lemma summaries_do_not_depend_on_record_order_example :
  exists conv',
    mapGet "chat-a" (groupMessages (reverse threeMessages)) = Some conv'
    /\ lastDate conv' = 200
    /\ unreadCount conv' = 1%nat
    /\ forall p, p ∈ participants conv' <-> p ∈ [ "+15550001" ].
Proof.
  apply (summaries_do_not_depend_on_record_order threeMessages (reverse threeMessages)
           "chat-a"
           {| chatId := "chat-a"; lastMessage := "third"; lastDate := 200;
              participants := [ "+15550001" ]; unreadCount := 1 |}).
  - apply Permutation_sym, reverse_Permutation.
  - reflexivity.
Defined.

Lemma firstOccurrences_elem_of x l : x ∈ firstOccurrences l <-> x ∈ l.
Proof.
  induction l as [|y l IH]; simpl; [done |].
  rewrite !elem_of_cons, list_elem_of_filter, IH.
  destruct (decide (x = y)); intuition congruence.
Qed.

Lemma firstOccurrences_snoc l x :
  firstOccurrences (l ++ [x])
  = if decide (x ∈ l) then firstOccurrences l else (firstOccurrences l ++ [x])%list.
Proof.
  induction l as [|y l IH]; simpl.
  - done.
  - rewrite IH. destruct (decide (x = y)) as [->|Hne].
    + rewrite (decide_True (P := y ∈ y :: l)) by (by left).
      case_decide as Hin; [done |].
      rewrite filter_app, filter_cons, filter_nil.
      rewrite decide_False by (intros H; by apply H). by rewrite app_nil_r.
    + case_decide as Hin.
      * rewrite decide_True; [done | by right].
      * rewrite decide_False by (rewrite elem_of_cons; intros [?|?]; done).
        rewrite filter_app, filter_cons, filter_nil. by rewrite decide_True.
Qed.

(** X10. The conversation map holds one entry per conversation id of the
    snapshot, in the order in which the ids first occur in it. *)
Theorem groups_follow_first_occurrence (messages : list Message) :
  chatId <$> (groupMessages messages).*2 = firstOccurrences (msg_chatId <$> messages).
Proof.
  rewrite groupMessages_chatIds.
  induction messages as [|x messages IH] using rev_ind; [done |].
  rewrite groupMessages_snoc, groupStep_keys, fmap_app. cbn [fmap list_fmap].
  rewrite firstOccurrences_snoc, <- IH. unfold mapHas.
  pose proof (groupMessages_keys messages (msg_chatId x)) as Hkeys.
  case_bool_decide; case_decide; tauto.
Qed.

Lemma groups_follow_first_occurrence_example :
  chatId <$> (groupMessages mixedMessages).*2 = [ "group-1"; "chat-a" ].
Proof. exact (groups_follow_first_occurrence mixedMessages). Defined.

Lemma selectConversations_take messages limit :
  exists n, selectConversations messages limit
            = take n (sortBy byLastDateDesc (groupMessages messages).*2).
Proof. unfold selectConversations, slice0. eauto. Qed.

(** X11. Conversations whose last-message timestamps are equal are listed
    in the order in which they first occur in the snapshot: restricted to
    one timestamp, the listing is a prefix of the entries of the map with
    that timestamp, and all of them when the limit does not cut the list. *)
Theorem equal_dates_keep_first_seen_order (messages : list Message) (limit date : Z) :
  let groups := (groupMessages messages).*2 in
  let sameDate := filter (fun conv => lastDate conv = date) in
  sameDate (selectConversations messages limit) `prefix_of` sameDate groups
  /\ (Z.of_nat (length groups) <= limit ->
      sameDate (selectConversations messages limit) = sameDate groups).
Proof.
  intros groups sameDate. split.
  - destruct (selectConversations_take messages limit) as [n ->]. fold groups.
    exists (sameDate (drop n (sortBy byLastDateDesc groups))).
    unfold sameDate. rewrite <- filter_app, take_drop. symmetry. apply sortBy_stable.
  - intros Hlimit. unfold selectConversations. fold groups.
    rewrite slice0_take by lia. rewrite take_ge.
    + apply sortBy_stable.
    + rewrite (Permutation_length (sortBy_Permutation byLastDateDesc groups)). lia.
Qed.

Lemma equal_dates_keep_first_seen_order_example :
  (Z.of_nat (length (groupMessages mixedMessages).*2) <= 50)
  /\ chatId <$> filter (fun conv => lastDate conv = 50)
                       (selectConversations mixedMessages 50)
     = [ "chat-a" ].
Proof.
  assert (Z.of_nat (length (groupMessages mixedMessages).*2) <= 50) as Hlimit
    by (vm_compute; discriminate).
  split; [exact Hlimit |].
  by rewrite (proj2 (equal_dates_keep_first_seen_order mixedMessages 50 50) Hlimit).
Defined.

(** X12. The number of conversations listed: with a limit that is not
    negative, the smaller of the limit and the number of conversations in
    the snapshot; with a negative limit, the number of conversations less
    the magnitude of the limit (none when that is not positive). In every
    case the listing is a prefix of the sorted conversations. *)
Theorem listing_size (messages : list Message) (limit : Z) :
  let groups := (groupMessages messages).*2 in
  let listed := selectConversations messages limit in
  listed `prefix_of` sortBy byLastDateDesc groups
  /\ (0 <= limit -> length listed = Nat.min (Z.to_nat limit) (length groups))
  /\ (limit < 0 -> length listed = (length groups - Z.to_nat (- limit))%nat)
  /\ (Z.of_nat (length groups) <= limit -> listed ≡ₚ groups).
Proof.
  intros groups listed.
  pose proof (Permutation_length (sortBy_Permutation byLastDateDesc groups)) as Hlen.
  split_and!.
  - destruct (selectConversations_take messages limit) as [n Hn].
    unfold listed. rewrite Hn. apply prefix_take.
  - intros Hlimit. unfold listed, selectConversations. fold groups.
    rewrite slice0_take by done. rewrite length_take. lia.
  - intros Hlimit. unfold listed, selectConversations, slice0. fold groups.
    rewrite (proj2 (Z.ltb_lt limit 0)) by done. rewrite length_take. lia.
  - intros Hlimit. unfold listed, selectConversations. fold groups.
    rewrite slice0_take by lia. rewrite take_ge by lia.
    apply sortBy_Permutation.
Qed.

Lemma listing_size_example :
  -1 < 0 /\ length (selectConversations threeMessages (-1)) = 1%nat.
Proof.
  split; [lia |].
  exact (proj1 (proj2 (proj2 (listing_size threeMessages (-1)))) ltac:(lia)).
Defined.

Lemma sameSummary_step conv d x :
  SameSummary conv d -> SameSummary (updateEntry conv x) (detailStep d x).
Proof.
  intros (Hp & Hm & Hd & Hu). unfold SameSummary, updateEntry, detailStep.
  rewrite Hp, Hm, Hd, Hu.
  by destruct (msg_date x >? lastDate conv), (msg_isFromMe x), (msg_isRead x).
Qed.

Lemma sameSummary_first x :
  SameSummary (updateEntry (newEntry x) x) (detailStep noDetails x).
Proof.
  unfold SameSummary, updateEntry, detailStep. cbn.
  replace (msg_date x >? msg_date x) with false by (symmetry; rewrite Z.gtb_ltb; lia).
  by destruct (msg_isFromMe x), (msg_isRead x).
Qed.

(** X13. Over one snapshot the conversation list and the detail view agree:
    the entry that the loop of [getConversations] builds for a chat id
    holds the participants (in the same order), the last message, the last
    timestamp and the unread count that the loop of
    [getConversationDetails] computes for that chat id. *)
Theorem list_and_details_agree (messages : list Message) (key : string)
    (conv : ConversationEntry) :
  mapGet key (groupMessages messages) = Some conv ->
  SameSummary conv (collectDetails (filter (fun msg => msg_chatId msg = key) messages)).
Proof.
  revert conv. induction messages as [|x messages IH] using rev_ind; [done |].
  intros conv. rewrite groupMessages_snoc, groupStep_get.
  change (filter (fun msg => msg_chatId msg = key) (messages ++ [x])%list)
    with (recordsOf key (messages ++ [x])%list).
  rewrite recordsOf_snoc. case_decide as Hk; [| apply IH].
  rewrite collectDetails_snoc. intros [= <-].
  destruct (mapGet key (groupMessages messages)) as [c|] eqn:Hget; simpl.
  - apply sameSummary_step. by apply IH.
  - destruct (groupMessages_invariant messages) as [_ Hinv].
    specialize (Hinv key). rewrite Hget in Hinv. rewrite Hinv.
    apply sameSummary_first.
Qed.

Lemma list_and_details_agree_example :
  let conv := {| chatId := "group-1"; lastMessage := "(no text)"; lastDate := 70;
                 participants := [""; "+15550003"]; unreadCount := 2 |} in
  mapGet "group-1" (groupMessages mixedMessages) = Some conv
  /\ SameSummary conv
       (collectDetails (filter (fun msg => msg_chatId msg = "group-1") mixedMessages)).
Proof.
  intros conv.
  assert (mapGet "group-1" (groupMessages mixedMessages) = Some conv) as Hget
    by reflexivity.
  split; [exact Hget |].
  exact (list_and_details_agree mixedMessages "group-1" conv Hget).
Defined.

(** ** Further properties of the texts returned *)








(** ** Further properties of the handlers, the tool list and the lifecycle *)

(** X16. The get-conversation-details handler answers ['chatId is required']
    to an absent argument value, to one that is not an object and to an
    object without [chatId]; ['chatId must be a string'] to a [chatId] of any
    other type; and passes a string on to the client, which rejects the
    empty string before it queries the SDK. *)
Theorem details_arguments_validation (client : Client) (args : JsValue) :
  (truthy args = false \/ typeof args <> TObject \/ hasProperty "chatId" args = false ->
   handleGetConversationDetailsTool client args
   = Return (errorResult (ErrorObj "chatId is required")))
  /\ (forall props value,
        props !! "chatId" = Some value ->
        (forall s, value <> JString s) ->
        handleGetConversationDetailsTool client (JObject props)
        = Return (errorResult (ErrorObj "chatId must be a string")))
  /\ (forall props key,
        props !! "chatId" = Some (JString key) ->
        handleGetConversationDetailsTool client (JObject props)
        = match client_getConversationDetails client key with
          | Return result => Return (textResult result)
          | Throw error => Return (errorResult error)
          end)
  /\ (forall rt sdk props,
        props !! "chatId" = Some (JString "") ->
        handleGetConversationDetailsTool (newPhotonClient rt sdk) (JObject props)
        = Return (errorResult
                    (ErrorObj "Failed to get conversation details: Chat ID is required"))).
Proof.
  split_and!.
  - intros Hbad. unfold handleGetConversationDetailsTool, typeIs.
    destruct (truthy args); [| done].
    destruct (decide (typeof args = TObject)) as [Hobj|Hobj].
    + rewrite bool_decide_true by done.
      destruct (hasProperty "chatId" args); [| done].
      destruct Hbad as [?|[?|?]]; done.
    + by rewrite bool_decide_false.
  - intros props value Hvalue Hnot. unfold handleGetConversationDetailsTool.
    rewrite hasProperty_lookup. unfold getProperty. rewrite Hvalue.
    rewrite bool_decide_true by done. cbn.
    destruct value; try done. by destruct (Hnot s).
  - intros props key Hkey. unfold handleGetConversationDetailsTool.
    rewrite hasProperty_lookup. unfold getProperty. rewrite Hkey.
    rewrite bool_decide_true by done. cbn.
    by destruct (client_getConversationDetails client key).
  - intros rt sdk props Hkey. unfold handleGetConversationDetailsTool.
    rewrite hasProperty_lookup. unfold getProperty. rewrite Hkey.
    by rewrite bool_decide_true by done.
Qed.

Lemma details_arguments_validation_example :
  handleGetConversationDetailsTool (throwingClient (ErrorObj "unused"))
    (JObject {[ "chatId" := JNumber (Fin 7) ]})
  = Return (errorResult (ErrorObj "chatId must be a string")).
Proof.
  apply (proj1 (proj2 (details_arguments_validation
                         (throwingClient (ErrorObj "unused")) JNull))
           {[ "chatId" := JNumber (Fin 7) ]} (JNumber (Fin 7))); [reflexivity | done].
Defined.

(** X17. The get-conversations handler rejects an absent argument value and
    one that is not an object, and hands every other value to the client.
    Without a [limit] the client asks the SDK for 500 messages and lists at
    most 50 conversations; with a numeric limit [n] it asks for [10 * n],
    as long as that product is an integer the runtime's numbers hold
    exactly (at most [2 ^ 53] in magnitude). *)
Theorem conversations_arguments_and_window (rt : Runtime) (client : Client)
    (args : JsValue) :
  (truthy args = false ->
   handleGetConversationsTool client args
   = Return (errorResult (ErrorObj "No arguments provided")))
  /\ (truthy args = true -> typeof args <> TObject ->
      handleGetConversationsTool client args
      = Return (errorResult (ErrorObj "Invalid arguments for photon_get_conversations")))
  /\ (truthy args = true -> typeof args = TObject ->
      handleGetConversationsTool client args
      = match client_getConversations client args with
        | Return result => Return (textResult result)
        | Throw error => Return (errorResult error)
        end)
  /\ (getProperty "limit" args = JUndefined ->
      filter_limit (PhotonClient.conversationsFilter rt args)
      = Some (JNumber (Fin 500))
      /\ forall messages,
           (length (selectConversations messages
                      (ToIntegerOrInfinity
                         (ToNumber rt (PhotonClient.conversationsLimit args))))
            <= 50)%nat)
  /\ (forall n, getProperty "limit" args = JNumber (Fin n) ->
                Z.abs (n * 10) <= 2 ^ 53 ->
                filter_limit (PhotonClient.conversationsFilter rt args)
                = Some (JNumber (Fin (n * 10)))).
Proof.
  split_and!.
  - intros Hf. unfold handleGetConversationsTool. by rewrite Hf.
  - intros Ht Hobj. unfold handleGetConversationsTool, isGetConversationsArgs, typeIs.
    rewrite Ht. by rewrite bool_decide_false.
  - intros Ht Hobj. unfold handleGetConversationsTool, isGetConversationsArgs, typeIs.
    rewrite Ht. rewrite bool_decide_true by done.
    destruct args; try done; cbn; by destruct (client_getConversations client _).
  - intros Hl. unfold PhotonClient.conversationsFilter, PhotonClient.conversationsLimit.
    rewrite Hl. split; [done |]. intros messages. cbn.
    unfold selectConversations. rewrite slice0_take by done.
    rewrite length_take. lia.
  - intros n Hl _.
    unfold PhotonClient.conversationsFilter, PhotonClient.conversationsLimit.
    by rewrite Hl.
Qed.

Lemma conversations_arguments_and_window_example :
  filter_limit (PhotonClient.conversationsFilter sampleRuntime (JArray []))
  = Some (JNumber (Fin 500))
  /\ Z.abs (5 * 10) <= 2 ^ 53
  /\ filter_limit (PhotonClient.conversationsFilter sampleRuntime
                     (JObject {[ "limit" := JNumber (Fin 5) ]}))
     = Some (JNumber (Fin 50)).
Proof.
  assert (Z.abs (5 * 10) <= 2 ^ 53) as Hsafe by (vm_compute; discriminate).
  split; [| split; [exact Hsafe |]].
  - exact (proj1 (proj1 (proj2 (proj2 (proj2
             (conversations_arguments_and_window sampleRuntime
                (throwingClient (ErrorObj "unused")) (JArray []))))) eq_refl)).
  - exact (proj2 (proj2 (proj2 (proj2
             (conversations_arguments_and_window sampleRuntime
                (throwingClient (ErrorObj "unused"))
                (JObject {[ "limit" := JNumber (Fin 5) ]})))))
             5 eq_refl Hsafe).
Defined.

Lemma listed_names : tool_name <$> listTools = toolNames.
Proof. reflexivity. Qed.

(** X18. The tools that are listed are exactly the tools that can be
    called: on either server a call is dispatched to a handler if and only
    if its name is the name of a listed tool, and the listed names are
    distinct. *)
Theorem listed_tools_are_the_callable_ones (client : Client) (name : string)
    (args : JsValue) :
  (name ∈ tool_name <$> listTools
   <-> exists outcome, callTool client name args = Handled outcome)
  /\ (name ∈ tool_name <$> listTools
      <-> exists outcome, standaloneCallTool client name args = Handled outcome)
  /\ NoDup (tool_name <$> listTools).
Proof.
  rewrite listed_names.
  assert (name ∈ toolNames ->
          (exists outcome, callTool client name args = Handled outcome)
          /\ exists outcome, standaloneCallTool client name args = Handled outcome)
    as Hin.
  { unfold toolNames. intros H.
    repeat (apply elem_of_cons in H as [->|H]); [.. | inversion H];
      split; eexists; reflexivity. }
  assert (name ∉ toolNames ->
          (forall outcome, callTool client name args <> Handled outcome)
          /\ forall outcome, standaloneCallTool client name args <> Handled outcome)
    as Hout.
  { intros H. apply not_a_tool_name in H as (H1 & H2 & H3 & H4).
    unfold callTool, standaloneCallTool. rewrite H1, H2, H3, H4. by split. }
  split_and!.
  - split; [apply Hin |]. intros [outcome Ho].
    destruct (decide (name ∈ toolNames)) as [|Hnot]; [done |].
    by destruct (proj1 (Hout Hnot) outcome).
  - split; [apply Hin |]. intros [outcome Ho].
    destruct (decide (name ∈ toolNames)) as [|Hnot]; [done |].
    by destruct (proj2 (Hout Hnot) outcome).
  - apply (bool_decide_unpack _). by vm_compute.
Qed.

(** X19. What a tool declares as required is enforced: a call of a listed
    tool with an argument object that lacks one of the tool's required
    properties is answered by an envelope flagged as error, and the client
    is not consulted. *)
Theorem required_properties_are_enforced (tool : Tool) (key : string)
    (props : gmap string JsValue) :
  tool ∈ listTools ->
  key ∈ tool_required tool ->
  props !! key = None ->
  exists cause,
    forall anyClient,
      callTool anyClient (tool_name tool) (JObject props)
      = Handled (Return {| content := [ {| text := "Error: " ++ cause |} ];
                           isError := true |}).
Proof.
  intros Htool Hkey Hmissing. unfold listTools in Htool.
  repeat (apply elem_of_cons in Htool as [->|Htool]); [.. | inversion Htool];
    cbn in Hkey.
  - eexists. intros anyClient. cbn [callTool tool_name sendMessageToolDefinition].
    cbn. f_equal. apply sendMessage_invalid_shape. intros recipient body [Hr Ht].
    repeat (apply elem_of_cons in Hkey as [->|Hkey]); [congruence | congruence |].
    inversion Hkey.
  - inversion Hkey.
  - inversion Hkey.
  - apply list_elem_of_singleton in Hkey as ->.
    eexists. intros anyClient. cbn. f_equal.
    unfold handleGetConversationDetailsTool. rewrite hasProperty_lookup.
    rewrite bool_decide_false by (intros H; by apply H). reflexivity.
Qed.

Lemma required_properties_are_enforced_example :
  exists cause,
    forall anyClient,
      callTool anyClient "photon_get_conversation_details" (JObject ∅)
      = Handled (Return {| content := [ {| text := "Error: " ++ cause |} ];
                           isError := true |}).
Proof.
  apply (required_properties_are_enforced getConversationDetailsToolDefinition
           "chatId" ∅).
  - unfold listTools. do 3 right. by left.
  - by left.
  - reflexivity.
Defined.

(** X20. The constructor of the client builds the SDK while [console.log]
    and [console.info] are replaced by no-ops. When the SDK is built the
    two functions are put back as they were; when building it throws they
    stay replaced, and the error thrown is an [Error] whose message begins
    with ['Failed to initialize Photon SDK: ']. *)
Theorem constructor_restores_console_on_success {F SDK : Type} (noop : F)
    (construct : Console F -> Completion SDK) (console : Console F) :
  let silenced := {| console_log := noop; console_info := noop |} in
  (forall sdk,
     construct silenced = Return sdk ->
     constructPhotonClient noop construct console = (console, Return sdk))
  /\ (forall error,
        construct silenced = Throw error ->
        constructPhotonClient noop construct console
        = (silenced,
           Throw (ErrorObj ("Failed to initialize Photon SDK: " ++ errorText error))))
  /\ (forall other : Console F -> Completion SDK,
        other silenced = construct silenced ->
        constructPhotonClient noop other console
        = constructPhotonClient noop construct console).
Proof.
  intros silenced. unfold constructPhotonClient. fold silenced. split_and!.
  - intros sdk ->. by destruct console.
  - by intros error ->.
  - by intros other ->.
Qed.

Lemma constructor_restores_console_on_success_example :
  constructPhotonClient (F := bool) (SDK := unit) false
    (fun c => if console_log c then Return tt else Throw (ErrorObj "no database"))
    {| console_log := true; console_info := true |}
  = ({| console_log := false; console_info := false |},
     Throw (ErrorObj "Failed to initialize Photon SDK: no database")).
Proof.
  exact (proj1 (proj2 (constructor_restores_console_on_success (F := bool) (SDK := unit)
                         false
                         (fun c => if console_log c then Return tt
                                   else Throw (ErrorObj "no database"))
                         {| console_log := true; console_info := true |}))
           (ErrorObj "no database") eq_refl).
Defined.

(** X21. The shutdown handler always ends by exiting with status 0,
    whatever closing the client or the server throws; the server is closed
    only after the client has been closed without error, and when closing
    the client throws the outcome of closing the server plays no part. *)
Theorem cleanup_always_exits (closeClient closeServer : Completion unit) :
  last (cleanup closeClient closeServer) = Some (ProcessExit 0)
  /\ (ServerClosed ∈ cleanup closeClient closeServer
      <-> closeClient = Return tt /\ closeServer = Return tt)
  /\ (forall error,
        closeClient = Throw error ->
        forall other,
          cleanup closeClient other
          = [ ErrorLogged "Error during cleanup:" error; ProcessExit 0 ])
  /\ (ClientClosed ∈ cleanup closeClient closeServer <-> closeClient = Return tt).
Proof.
  assert (forall steps : list ShutdownStep,
            ServerClosed ∉ steps -> ServerClosed ∉ ClientClosed :: steps) as Hskip.
  { intros steps Hnot [H|H]%elem_of_cons; [discriminate H | done]. }
  assert (forall label error, ServerClosed ∉ [ ErrorLogged label error; ProcessExit 0 ])
    as Hfailed.
  { intros label error H.
    repeat (apply elem_of_cons in H as [H|H]; [discriminate H |]). inversion H. }
  assert (forall label error, ClientClosed ∉ [ ErrorLogged label error; ProcessExit 0 ])
    as Hfailed'.
  { intros label error H.
    repeat (apply elem_of_cons in H as [H|H]; [discriminate H |]). inversion H. }
  unfold cleanup. split_and!.
  - by destruct closeClient as [[]|e], closeServer as [[]|e'].
  - destruct closeClient as [[]|e]; [destruct closeServer as [[]|e'] |].
    + split; [done |]. intros _. right. by left.
    + split; [intros H; destruct (Hskip _ (Hfailed _ _) H) | intros [_ H]; discriminate H].
    + split; [intros H; destruct (Hfailed _ _ H) | intros [H _]; discriminate H].
  - by intros error -> other.
  - destruct closeClient as [[]|e]; [destruct closeServer as [[]|e'] |].
    + split; [done |]. intros _. by left.
    + split; [done |]. intros _. by left.
    + split; [intros H; destruct (Hfailed' _ _ H) | intros H; discriminate H].
Qed.

Lemma cleanup_always_exits_example :
  cleanup (Throw (ErrorObj "database is locked")) (Return tt)
  = [ ErrorLogged "Error during cleanup:" (ErrorObj "database is locked");
      ProcessExit 0 ].
Proof.
  exact (proj1 (proj2 (proj2 (cleanup_always_exits
                                (Throw (ErrorObj "database is locked")) (Return tt))))
           (ErrorObj "database is locked") eq_refl (Return tt)).
Defined.

Lemma result_shape_is_normalised_example :
  PhotonClient.getConversations sampleRuntime (wrappingSDK (snapshotSDK threeMessages))
    (JObject ∅)
  = PhotonClient.getConversations sampleRuntime (snapshotSDK threeMessages) (JObject ∅).
Proof.
  exact (proj1 (proj2 (result_shape_is_normalised sampleRuntime
                         (snapshotSDK threeMessages))) (JObject ∅)).
Defined.

Lemma listed_tools_are_the_callable_ones_example :
  ("photon_read_messages" ∈ tool_name <$> listTools)
  /\ exists outcome,
       callTool (throwingClient (ErrorObj "unused")) "photon_read_messages" JUndefined
       = Handled outcome.
Proof.
  assert ("photon_read_messages" ∈ tool_name <$> listTools) as Hin
    by (right; by left).
  split; [exact Hin |].
  exact (proj1 (proj1 (listed_tools_are_the_callable_ones
                         (throwingClient (ErrorObj "unused"))
                         "photon_read_messages" JUndefined)) Hin).
Defined.
